(** * Telegram forwarder: replacement engine, channel matcher, forwarding decider

    A shallow embedding of the decision logic of [src/bot.py]
    ([apply_replacements], [handle_channel_post], [forward_channel_message],
    [cmd_add_channel]) together with the parts of the Python runtime these
    functions call ([str.replace], [str.lower], [str.lstrip], [str.split],
    [sorted], [re.escape], [re.sub]).

    Text is modelled over the code points U+0000..U+00FF: a Rocq [ascii] is
    read as the code point with that number.  On this range [str.lower], the
    regex class of word characters and [str.isspace] are closed, and the
    tables below are CPython's.  Code points above U+00FF are outside the
    model. *)

From Stdlib Require Import Bool Arith NArith ZArith Lia List.
From Stdlib Require Import Ascii String DecimalString.
From Stdlib Require Import Permutation Sorted.
Import ListNotations.

Local Open Scope string_scope.
Local Open Scope bool_scope.

(** ** Exceptions and results *)

(** The exceptions the modelled code can raise; all of them derive from
    Python's [Exception]. *)
Inductive exn : Type :=
| re_error (msg : string)      (* re.error raised by the template compiler *)
| IndexError (msg : string).   (* unknown named group in a template *)

Inductive result (A : Type) : Type :=
| Ok (a : A)
| Raise (e : exn).
Arguments Ok {A} a.
Arguments Raise {A} e.

Definition bind {A B : Type} (m : result A) (k : A -> result B) : result B :=
  match m with
  | Ok a => k a
  | Raise e => Raise e
  end.

Notation "x <- m ;; k" := (bind m (fun x => k))
  (at level 61, m at next level, right associativity).

(** ** Python [str] *)

Module PyStr.

Definition ord (c : ascii) : N := N_of_ascii c.
Definition chr (n : N) : ascii := ascii_of_N n.

Definition between (lo hi n : N) : bool := (lo <=? n)%N && (n <=? hi)%N.

(** Code points with a distinct lower-case form: A-Z and the Latin-1
    capitals U+00C0..U+00DE except the multiplication sign U+00D7. *)
Definition is_upper (c : ascii) : bool :=
  let n := ord c in
  between 65 90 n || (between 192 222 n && negb (n =? 215)%N).

Definition lower_char (c : ascii) : ascii :=
  if is_upper c then chr (ord c + 32) else c.

Fixpoint lower (s : string) : string :=
  match s with
  | EmptyString => EmptyString
  | String c s' => String (lower_char c) (lower s')
  end.

(** [str.isspace] on one code point. *)
Definition is_space (c : ascii) : bool :=
  let n := ord c in
  between 9 13 n || between 28 32 n || (n =? 133)%N || (n =? 160)%N.

(** Truth value of a string: [not s] is [is_empty s]. *)
Definition is_empty (s : string) : bool :=
  match s with
  | EmptyString => true
  | String _ _ => false
  end.

Definition head (s : string) : option ascii :=
  match s with
  | EmptyString => None
  | String c _ => Some c
  end.

(** [s.startswith(p)]. *)
Fixpoint startswith (p s : string) : bool :=
  match p with
  | EmptyString => true
  | String a p' =>
      match s with
      | EmptyString => false
      | String b s' => Ascii.eqb a b && startswith p' s'
      end
  end.

(** [p in s]: some suffix of [s] starts with [p]. *)
Fixpoint contains (p s : string) : bool :=
  startswith p s ||
  match s with
  | EmptyString => false
  | String _ s' => contains p s'
  end.

(** [s.lstrip(ch)] for a one-character set: all leading [ch] are dropped. *)
Fixpoint lstrip (ch : ascii) (s : string) : string :=
  match s with
  | EmptyString => EmptyString
  | String c s' => if Ascii.eqb c ch then lstrip ch s' else s
  end.

Fixpoint lstrip_space (s : string) : string :=
  match s with
  | EmptyString => EmptyString
  | String c s' => if is_space c then lstrip_space s' else s
  end.

(** [s.rstrip()]: the characters of [s] up to its last non-space one. *)
Fixpoint rstrip_space (s : string) : string :=
  match s with
  | EmptyString => EmptyString
  | String c s' =>
      match rstrip_space s' with
      | EmptyString => if is_space c then EmptyString else String c EmptyString
      | r => String c r
      end
  end.

(** [s.strip()]. *)
Definition strip (s : string) : string := rstrip_space (lstrip_space s).

(** The first whitespace-free run of [s] and what follows it. *)
Fixpoint span_word (s : string) : string * string :=
  match s with
  | EmptyString => (EmptyString, EmptyString)
  | String c s' =>
      if is_space c then (EmptyString, s)
      else let (w, r) := span_word s' in (String c w, r)
  end.

(** [s.split(None, 1)]: at most two fields; the second keeps its trailing
    whitespace. *)
Definition split_None_1 (s : string) : list string :=
  match lstrip_space s with
  | EmptyString => []
  | t =>
      let (w, r) := span_word t in
      match lstrip_space r with
      | EmptyString => [w]
      | r' => [w; r']
      end
  end.

(** [s.replace(old, new)] for a non-empty [old], scanning left to right.
    [skip] counts the characters of the current occurrence of [old] that
    are still to be dropped. *)
Fixpoint replace_from (old new : string) (skip : nat) (s : string) : string :=
  match s with
  | EmptyString => EmptyString
  | String c s' =>
      match skip with
      | S k => replace_from old new k s'
      | O =>
          if startswith old s
          then new ++ replace_from old new (String.length old - 1) s'
          else String c (replace_from old new 0 s')
      end
  end.

(** With an empty [old], [new] is put before every character and at the
    end. *)
Fixpoint intersperse (new s : string) : string :=
  match s with
  | EmptyString => new
  | String c s' => new ++ String c (intersperse new s')
  end.

Definition replace (old new s : string) : string :=
  match old with
  | EmptyString => intersperse new s
  | String _ _ => replace_from old new 0 s
  end.

(** [str(n)] for an integer. *)
Definition str_int (n : Z) : string := NilZero.string_of_int (Z.to_int n).

End PyStr.

(** ** Python [re]: the patterns and templates [apply_replacements] builds *)

Module PyRe.
Import PyStr.

(** The class [\w] of a [str] pattern: alphanumeric code points and the
    underscore. *)
Definition is_word (c : ascii) : bool :=
  let n := ord c in
  between 48 57 n || between 65 90 n || (n =? 95)%N || between 97 122 n
  || (n =? 170)%N || between 178 179 n || (n =? 181)%N || between 185 186 n
  || between 188 190 n || between 192 214 n || between 216 246 n
  || between 248 255 n.

(** Outside the string there is no word character. *)
Definition is_word_at (c : option ascii) : bool :=
  match c with
  | Some a => is_word a
  | None => false
  end.

(** [\b] holds between [prev] and [next] when exactly one of them is a
    word character. *)
Definition word_boundary (prev next : option ascii) : bool :=
  xorb (is_word_at prev) (is_word_at next).

(** Two code points are equal under [re.IGNORECASE]. *)
Definition ci_eqb (a b : ascii) : bool :=
  Ascii.eqb (lower_char a) (lower_char b).

(** A compiled pattern, as far as this program builds one. *)
Inductive atom : Type :=
| Boundary               (* \b *)
| Literal (c : ascii).   (* one literal code point, matched ignoring case *)

Definition pattern : Type := list atom.

Fixpoint literals (s : string) : pattern :=
  match s with
  | EmptyString => []
  | String c s' => Literal c :: literals s'
  end.

(** [re.compile(r'\b' + re.escape(old_word) + r'\b', re.IGNORECASE)]:
    [re.escape] makes every character of [old_word] a literal. *)
Definition word_pattern (old_word : string) : pattern :=
  Boundary :: literals old_word ++ [Boundary].

(** Match [p] at the current position: [prev] is the character before it,
    [s] the text from it on.  The result is the length of the match. *)
Fixpoint match_here (p : pattern) (prev : option ascii) (s : string)
  : option nat :=
  match p with
  | [] => Some 0
  | Boundary :: p' =>
      if word_boundary prev (head s) then match_here p' prev s else None
  | Literal k :: p' =>
      match s with
      | EmptyString => None
      | String c s' =>
          if ci_eqb k c
          then option_map S (match_here p' (Some c) s')
          else None
      end
  end.

(** [re.search]: does [p] match at some position of the text? *)
Fixpoint search_from (p : pattern) (prev : option ascii) (s : string) : bool :=
  match match_here p prev s with
  | Some _ => true
  | None =>
      match s with
      | EmptyString => false
      | String c s' => search_from p (Some c) s'
      end
  end.

Definition search (p : pattern) (s : string) : bool := search_from p None s.

(** A compiled replacement template: literal characters and references to
    group 0 (the patterns here have no other group). *)
Inductive tpl_item : Type :=
| Lit (c : ascii)
| Group0.

Definition template : Type := list tpl_item.

Definition is_digit (c : ascii) : bool := between 48 57 (ord c).
Definition is_octdigit (c : ascii) : bool := between 48 55 (ord c).
Definition is_ascii_letter (c : ascii) : bool :=
  between 65 90 (ord c) || between 97 122 (ord c).
Definition digit_val (c : ascii) : N := (ord c - 48)%N.

(** [str.isidentifier] on the modelled range. *)
Definition is_id_start (c : ascii) : bool :=
  let n := ord c in
  between 65 90 n || (n =? 95)%N || between 97 122 n || (n =? 170)%N
  || (n =? 181)%N || (n =? 186)%N || between 192 214 n || between 216 246 n
  || between 248 255 n.

Definition is_id_continue (c : ascii) : bool :=
  is_id_start c || is_digit c || (ord c =? 183)%N.

Fixpoint all_chars (f : ascii -> bool) (s : string) : bool :=
  match s with
  | EmptyString => true
  | String c s' => f c && all_chars f s'
  end.

Definition isidentifier (s : string) : bool :=
  match s with
  | EmptyString => false
  | String c s' => is_id_start c && all_chars is_id_continue s'
  end.

(** The group a [\g<name>] refers to, in a pattern without groups.  Only
    an all-zero decimal name names group 0.  (Names such as [+0], which
    interpreters before 3.12 accept with a deprecation warning, are
    rejected as from 3.12 on.) *)
Definition group_of_name (name : string) : result tpl_item :=
  match name with
  | EmptyString => Raise (re_error "missing group name")
  | String _ _ =>
      if all_chars is_digit name then
        if all_chars (Ascii.eqb "0") name then Ok Group0
        else Raise (re_error "invalid group reference")
      else if isidentifier name then Raise (IndexError "unknown group name")
      else Raise (re_error "bad character in group name")
  end.

(** The escapes of a template that stand for one character. *)
Definition escape_char (c : ascii) : option ascii :=
  if Ascii.eqb c "a" then Some (chr 7)
  else if Ascii.eqb c "b" then Some (chr 8)
  else if Ascii.eqb c "f" then Some (chr 12)
  else if Ascii.eqb c "n" then Some (chr 10)
  else if Ascii.eqb c "r" then Some (chr 13)
  else if Ascii.eqb c "t" then Some (chr 9)
  else if Ascii.eqb c "v" then Some (chr 11)
  else if Ascii.eqb c "\" then Some "\"%char
  else None.

Definition cons_item (i : tpl_item) (r : result template) : result template :=
  t <- r ;; Ok (i :: t).

(** The template compiler ([parse_template]) for a pattern without groups.
    A replacement without a backslash compiles to itself. *)
Fixpoint parse_template (s : string) : result template :=
  match s with
  | EmptyString => Ok []
  | String c s1 =>
      if negb (Ascii.eqb c "\") then cons_item (Lit c) (parse_template s1)
      else
        match s1 with
        | EmptyString => Raise (re_error "bad escape (end of pattern)")
        | String e s2 =>
            if Ascii.eqb e "g" then
              match s2 with
              | String "<" s3 =>
                  (fix name (acc r : string) {struct r} : result template :=
                     match r with
                     | EmptyString =>
                         Raise (re_error "missing >, unterminated name")
                     | String d r' =>
                         if Ascii.eqb d ">"
                         then i <- group_of_name acc ;;
                              cons_item i (parse_template r')
                         else name (acc ++ String d EmptyString) r'
                     end) EmptyString s3
              | _ => Raise (re_error "missing <")
              end
            else if Ascii.eqb e "0" then
              (* \0, \0o, \0oo: an octal escape *)
              match s2 with
              | String o1 s3 =>
                  if is_octdigit o1 then
                    match s3 with
                    | String o2 s4 =>
                        if is_octdigit o2
                        then cons_item
                               (Lit (chr (digit_val o1 * 8 + digit_val o2)))
                               (parse_template s4)
                        else cons_item (Lit (chr (digit_val o1)))
                               (parse_template s3)
                    | EmptyString =>
                        cons_item (Lit (chr (digit_val o1)))
                          (parse_template s3)
                    end
                  else cons_item (Lit (chr 0)) (parse_template s2)
              | EmptyString => cons_item (Lit (chr 0)) (parse_template s2)
              end
            else if is_digit e then
              (* \ooo is an octal escape; any other \d or \dd refers to a
                 group the pattern does not have *)
              match s2 with
              | String d2 (String d3 s4) =>
                  if is_octdigit e && is_octdigit d2 && is_octdigit d3 then
                    let v := (digit_val e * 64 + digit_val d2 * 8
                              + digit_val d3)%N in
                    if (255 <? v)%N
                    then Raise (re_error "octal escape value outside of range 0-0o377")
                    else cons_item (Lit (chr v)) (parse_template s4)
                  else Raise (re_error "invalid group reference")
              | _ => Raise (re_error "invalid group reference")
              end
            else
              match escape_char e with
              | Some x => cons_item (Lit x) (parse_template s2)
              | None =>
                  if is_ascii_letter e then Raise (re_error "bad escape")
                  else cons_item (Lit "\")
                         (cons_item (Lit e) (parse_template s2))
              end
        end
  end.

(** Expansion of a template for the matched text [m]. *)
Fixpoint expand (t : template) (m : string) : string :=
  match t with
  | [] => EmptyString
  | Lit c :: t' => String c (expand t' m)
  | Group0 :: t' => m ++ expand t' m
  end.

(** The scan of [re.sub]: leftmost matches, left to right, no overlap.
    [skip] counts the characters of the current match still to be dropped;
    after an empty match the scan advances by one character. *)
Fixpoint sub_from (p : pattern) (t : template) (prev : option ascii)
         (skip : nat) (s : string) {struct s} : string :=
  match skip with
  | S k =>
      match s with
      | EmptyString => EmptyString
      | String c s' => sub_from p t (Some c) k s'
      end
  | O =>
      match match_here p prev s with
      | Some n =>
          expand t (substring 0 n s) ++
          match s with
          | EmptyString => EmptyString
          | String c s' =>
              match n with
              | O => String c (sub_from p t (Some c) 0 s')
              | S k => sub_from p t (Some c) k s'
              end
          end
      | None =>
          match s with
          | EmptyString => EmptyString
          | String c s' => String c (sub_from p t (Some c) 0 s')
          end
      end
  end.

(** [re.sub(p, repl, s)]: the template is compiled before the text is
    searched, so a malformed [repl] raises even when nothing matches. *)
Definition sub (p : pattern) (repl s : string) : result string :=
  t <- parse_template repl ;;
  Ok (sub_from p t None 0 s).

End PyRe.

(** ** Configuration ([BotConfig]) *)

(** A [Dict[str, str]] as the list of its items in iteration (insertion)
    order: that order decides the outcome of [apply_replacements]. *)
Definition Dict : Type := list (string * string).

(** [config.replacements]: the three rule categories. *)
Record Replacements : Type := {
  links : Dict;
  words : Dict;
  sentences : Dict
}.

Record BotConfig : Type := {
  source_channels : list string;
  target_channel : string;
  replacements : Replacements;
  forwarding_enabled : bool
}.

(** ** Channel posts and Bot API calls *)

Module Telegram.

Record Chat : Type := {
  id : Z;
  username : option string
}.

(** A media object; only its [file_id] is read. *)
Record Media : Type := { file_id : string }.

Record Post : Type := {
  chat : Chat;
  message_id : Z;
  text : option string;
  caption : option string;
  photo : list Media;          (* sizes, smallest first *)
  video : option Media;
  document : option Media;
  animation : option Media
}.

End Telegram.
Import Telegram.

(** The requests the forwarding path sends.  An absent [caption] is Python's
    [None]: the key is then left out of the payload. *)
Inductive ApiCall : Type :=
| send_message (chat_id text : string)
| send_photo (chat_id photo : string) (caption : option string)
| send_video (chat_id video : string) (caption : option string)
| send_document (chat_id document : string) (caption : option string)
| copy_message (from_chat_id to_chat_id : string) (message_id : Z)
               (caption : option string).

Inductive level : Type := DEBUG | INFO | WARNING | ERROR.

(** The log records of the modelled functions, with their format
    arguments. *)
Inductive message : Type :=
| ErrorApplyingReplacements (e : exn)
| ForwardingDisabled
| TargetNotSet
| NotSourceChannel (channel : string)
| Forwarded (channel target : string).

(** What a call leaves behind: log records and API requests, in order. *)
Inductive event : Type :=
| Log (lvl : level) (msg : message)
| Api (call : ApiCall).

(** ** The replacement engine *)

Import PyStr.

(** [sorted(d.items(), key=lambda item: len(item[0]), reverse=True)]: a
    stable sort, so items whose keys have equal length keep their order. *)
Fixpoint insert_by_len (x : string * string) (l : Dict) : Dict :=
  match l with
  | [] => [x]
  | y :: l' =>
      if Nat.ltb (String.length (fst x)) (String.length (fst y))
      then y :: insert_by_len x l'
      else x :: l
  end.

Definition sorted_by_len (d : Dict) : Dict := fold_right insert_by_len [] d.

(** The loop over the link rules. *)
Fixpoint links_stage (d : Dict) (modified_text : string) : string :=
  match d with
  | [] => modified_text
  | (old_link, new_link) :: d' =>
      links_stage d' (replace old_link new_link modified_text)
  end.

(** The loop over the word rules, already sorted. *)
Fixpoint words_loop (sorted_words : Dict) (modified_text : string)
  : result string :=
  match sorted_words with
  | [] => Ok modified_text
  | (old_word, new_word) :: rest =>
      t <- PyRe.sub (PyRe.word_pattern old_word) new_word modified_text ;;
      words_loop rest t
  end.

Definition words_stage (d : Dict) (modified_text : string) : result string :=
  words_loop (sorted_by_len d) modified_text.

(** The loop over the sentence rules, already sorted. *)
Fixpoint sentences_loop (sorted_sentences : Dict) (modified_text : string)
  : string :=
  match sorted_sentences with
  | [] => modified_text
  | (old_sentence, new_sentence) :: rest =>
      sentences_loop rest (replace old_sentence new_sentence modified_text)
  end.

Definition sentences_stage (d : Dict) (modified_text : string) : string :=
  sentences_loop (sorted_by_len d) modified_text.

(** The body of the [try] block of [apply_replacements]. *)
Definition run_stages (r : Replacements) (text : string) : result string :=
  let t1 := links_stage (links r) text in
  t2 <- words_stage (words r) t1 ;;
  Ok (sentences_stage (sentences r) t2).

(** [apply_replacements]: the returned text and the records logged. *)
Definition apply_replacements (cfg : BotConfig) (text : string)
  : string * list event :=
  if is_empty text then (text, [])
  else
    match run_stages (replacements cfg) text with
    | Ok modified_text => (modified_text, [])
    | Raise e => (text, [Log ERROR (ErrorApplyingReplacements e)])
    end.

(** The text [apply_replacements] returns. *)
Definition apply (cfg : BotConfig) (text : string) : string :=
  fst (apply_replacements cfg text).

(** Does a key of the ruleset still match in [s]?  Links and sentences
    match as substrings, words as their compiled pattern. *)
Definition key_in (s : string) (rule : string * string) : bool :=
  contains (fst rule) s.

Definition word_in (s : string) (rule : string * string) : bool :=
  PyRe.search (PyRe.word_pattern (fst rule)) s.

Definition key_occurs (r : Replacements) (s : string) : bool :=
  existsb (key_in s) (links r) || existsb (word_in s) (words r)
  || existsb (key_in s) (sentences r).

(** ** The channel matcher and the forwarding decider *)

(** [post.get(key, "")] on an optional string. *)
Definition get_str (o : option string) : string :=
  match o with
  | Some s => s
  | None => EmptyString
  end.

(** The comparison of one configured source with the post's channel. *)
Definition source_matches (channel_id channel_username source : string)
  : bool :=
  let normalized_source := lstrip "@" source in
  String.eqb channel_id normalized_source
  || String.eqb (lower channel_username) (lower normalized_source).

(** The loop that sets [is_source_channel], leaving at the first match. *)
Fixpoint is_source_channel (sources : list string)
         (channel_id channel_username : string) : bool :=
  match sources with
  | [] => false
  | source :: rest =>
      if source_matches channel_id channel_username source then true
      else is_source_channel rest channel_id channel_username
  end.

(** [x or y] on strings. *)
Definition str_or (x y : string) : string := if is_empty x then y else x.

(** [post["photo"][-1]["file_id"]] of a non-empty list. *)
Definition largest_photo (m : Media) (ms : list Media) : string :=
  file_id (last ms m).

Definition forward_channel_message (cfg : BotConfig) (post : Post)
  : list event :=
  let from_chat_id := str_int (id (chat post)) in
  let to_chat_id := target_channel cfg in
  let original_text := get_str (text post) in
  let original_caption := get_str (caption post) in
  let (new_text, log_text) := apply_replacements cfg original_text in
  let (new_caption, log_caption) := apply_replacements cfg original_caption in
  let text_modified := negb (String.eqb new_text original_text) in
  let caption_modified := negb (String.eqb new_caption original_caption) in
  let copy := copy_message from_chat_id to_chat_id (message_id post) None in
  let call :=
    match photo post, video post, document post, animation post with
    | m :: ms, _, _, _ =>
        if caption_modified
        then send_photo to_chat_id (largest_photo m ms) (Some new_caption)
        else copy
    | [], Some v, _, _ =>
        if caption_modified
        then send_video to_chat_id (file_id v) (Some new_caption)
        else copy
    | [], None, Some d, _ =>
        if caption_modified
        then send_document to_chat_id (file_id d) (Some new_caption)
        else copy
    | [], None, None, Some a =>
        if caption_modified
        then send_document to_chat_id (file_id a) (Some new_caption)
        else copy
    | [], None, None, None =>
        if negb (is_empty original_text) then
          if text_modified then send_message to_chat_id new_text else copy
        else
          if negb (is_empty original_caption) && caption_modified
          then copy_message from_chat_id to_chat_id (message_id post)
                 (Some new_caption)
          else copy
    end in
  log_text ++ log_caption ++ [Api call].

Definition handle_channel_post (cfg : BotConfig) (post : Post) : list event :=
  if negb (forwarding_enabled cfg) then [Log DEBUG ForwardingDisabled]
  else if is_empty (target_channel cfg) then [Log WARNING TargetNotSet]
  else
    let channel_id := str_int (id (chat post)) in
    let channel_username := get_str (username (chat post)) in
    let name := str_or channel_username channel_id in
    if negb (is_source_channel (source_channels cfg) channel_id
               channel_username)
    then [Log DEBUG (NotSourceChannel name)]
    else forward_channel_message cfg post
         ++ [Log INFO (Forwarded name (target_channel cfg))].

(** The requests among the events of a call. *)
Fixpoint api_calls (tr : list event) : list ApiCall :=
  match tr with
  | [] => []
  | Api c :: tr' => c :: api_calls tr'
  | Log _ _ :: tr' => api_calls tr'
  end.

(** The outcome of the decider as the specification names it: a post is
    relayed by exactly one request, or suppressed for one of three
    reasons, each with a log record of its own. *)
Inductive reason : Type := disabled | target_unset | not_source.

Inductive outcome : Type :=
| Suppressed (why : reason)
| Relayed (call : ApiCall).

Definition outcome_of (tr : list event) : option outcome :=
  match tr with
  | [Log DEBUG ForwardingDisabled] => Some (Suppressed disabled)
  | [Log WARNING TargetNotSet] => Some (Suppressed target_unset)
  | [Log DEBUG (NotSourceChannel _)] => Some (Suppressed not_source)
  | _ =>
      match api_calls tr with
      | [c] => Some (Relayed c)
      | _ => None
      end
  end.

(** ** The add-channel command *)

Fixpoint mem_str (x : string) (l : list string) : bool :=
  match l with
  | [] => false
  | y :: l' => String.eqb x y || mem_str x l'
  end.

(** [cmd_add_channel], as far as it changes the configuration (its replies
    to the administrator are left out). *)
Definition cmd_add_channel (cfg : BotConfig) (text : string) : BotConfig :=
  match split_None_1 text with
  | [_; arg] =>
      let channel := strip arg in
      let channel :=
        match channel with
        | String "@" rest => rest
        | _ => channel
        end in
      if negb (mem_str channel (map (lstrip "@") (source_channels cfg)))
      then {| source_channels := source_channels cfg ++ [channel];
              target_channel := target_channel cfg;
              replacements := replacements cfg;
              forwarding_enabled := forwarding_enabled cfg |}
      else cfg
  | _ => cfg
  end.

(** The order [sorted_by_len] establishes: the key of [a] is at least as
    long as the key of [b]. *)
Definition longer_first (a b : string * string) : Prop :=
  String.length (fst b) <= String.length (fst a).

(** A configuration that holds rules only. *)
Definition rules_only (l w s : Dict) : BotConfig :=
  {| source_channels := [];
     target_channel := EmptyString;
     replacements := {| links := l; words := w; sentences := s |};
     forwarding_enabled := false |}.

(** ** More of the Python runtime: fields, integers, dicts and lists *)

Module Py.
Import PyStr.

(** [s.split()]: the runs of [s] between whitespace; [cur] is the run being
    read. *)
Fixpoint split_fields (cur s : string) : list string :=
  match s with
  | EmptyString => if is_empty cur then [] else [cur]
  | String c s' =>
      if is_space c
      then if is_empty cur then split_fields EmptyString s'
           else cur :: split_fields EmptyString s'
      else split_fields (cur ++ String c EmptyString) s'
  end.

Definition split_None (s : string) : list string :=
  split_fields EmptyString s.

(** [s.split(sep, 1)] for an [s] that holds [sep]: the text before the
    first [sep] and the text after it. *)
Fixpoint split_sep_1 (sep : ascii) (s : string) : string * string :=
  match s with
  | EmptyString => (EmptyString, EmptyString)
  | String c s' =>
      if Ascii.eqb c sep then (EmptyString, s')
      else let (a, b) := split_sep_1 sep s' in (String c a, b)
  end.

(** The digits of an [int] literal: decimal digits, single underscores
    allowed between two of them.  [seen] tells whether the character before
    was a digit. *)
Fixpoint int_digits (acc : Z) (seen : bool) (s : string) : option Z :=
  match s with
  | EmptyString => if seen then Some acc else None
  | String c s' =>
      if PyRe.is_digit c
      then int_digits (acc * 10 + Z.of_N (PyRe.digit_val c)) true s'
      else if Ascii.eqb c "_"
           then if seen then int_digits acc false s' else None
           else None
  end.

(** [int(s)]; [None] stands for [ValueError].  (The interpreter's limit on
    the number of digits, 4300 by default, is above the length of a
    Telegram message and left out.) *)
Definition int (s : string) : option Z :=
  match strip s with
  | String "-" r => option_map Z.opp (int_digits 0 false r)
  | String "+" r => int_digits 0 false r
  | r => int_digits 0 false r
  end.

(** [k in d]. *)
Fixpoint dict_mem (k : string) (d : list (string * string)) : bool :=
  match d with
  | [] => false
  | (k', _) :: d' => String.eqb k' k || dict_mem k d'
  end.

(** [d.get(k)]. *)
Fixpoint dict_get (k : string) (d : list (string * string)) : option string :=
  match d with
  | [] => None
  | (k', v) :: d' => if String.eqb k' k then Some v else dict_get k d'
  end.

(** [d[k] = v]: a key already present keeps its place, a new one goes to
    the end. *)
Fixpoint dict_set (k v : string) (d : list (string * string))
  : list (string * string) :=
  match d with
  | [] => [(k, v)]
  | (k', v') :: d' =>
      if String.eqb k' k then (k', v) :: d' else (k', v') :: dict_set k v d'
  end.

(** [del d[k]] for a key that is present. *)
Fixpoint dict_del (k : string) (d : list (string * string))
  : list (string * string) :=
  match d with
  | [] => []
  | (k', v') :: d' =>
      if String.eqb k' k then d' else (k', v') :: dict_del k d'
  end.

(** [l.remove(x)] on a list of strings: the first [x] goes. *)
Fixpoint remove_str (x : string) (l : list string) : list string :=
  match l with
  | [] => []
  | y :: l' => if String.eqb y x then l' else y :: remove_str x l'
  end.

(** [x in l] and [l.remove(x)] on a list of integers. *)
Fixpoint mem_int (x : Z) (l : list Z) : bool :=
  match l with
  | [] => false
  | y :: l' => Z.eqb y x || mem_int x l'
  end.

Fixpoint remove_int (x : Z) (l : list Z) : list Z :=
  match l with
  | [] => []
  | y :: l' => if Z.eqb y x then l' else y :: remove_int x l'
  end.

End Py.

(** ** The payloads of the requests *)

(** A JSON value of a payload. *)
Inductive value : Type :=
| VStr (s : string)
| VInt (n : Z).

(** The [caption] and [parse_mode] entries, set when the caption is not
    [None] (an empty caption counts). *)
Definition caption_entries (caption : option string)
  : list (string * value) :=
  match caption with
  | Some c => [("caption", VStr c); ("parse_mode", VStr "HTML")]
  | None => []
  end.

(** The method and the payload [send_message], [send_photo], [send_video],
    [send_document] and [copy_message] hand to [_send_api_request]
    ([send_message] without a reply markup, as the forwarding path calls
    it). *)
Definition request (c : ApiCall) : string * list (string * value) :=
  match c with
  | send_message chat_id text =>
      ("sendMessage",
       [("chat_id", VStr chat_id); ("text", VStr text);
        ("parse_mode", VStr "HTML")])
  | send_photo chat_id photo caption =>
      ("sendPhoto",
       ([("chat_id", VStr chat_id); ("photo", VStr photo)]
        ++ caption_entries caption)%list)
  | send_video chat_id video caption =>
      ("sendVideo",
       ([("chat_id", VStr chat_id); ("video", VStr video)]
        ++ caption_entries caption)%list)
  | send_document chat_id document caption =>
      ("sendDocument",
       ([("chat_id", VStr chat_id); ("document", VStr document)]
        ++ caption_entries caption)%list)
  | copy_message from_chat_id to_chat_id message_id caption =>
      ("copyMessage",
       ([("chat_id", VStr to_chat_id); ("from_chat_id", VStr from_chat_id);
         ("message_id", VInt message_id)]
        ++ caption_entries caption)%list)
  end.

(** [payload.get(key)]. *)
Fixpoint payload_get (key : string) (p : list (string * value))
  : option value :=
  match p with
  | [] => None
  | (k, v) :: p' => if String.eqb k key then Some v else payload_get key p'
  end.

(** ** The commands that change the configuration

    Each command is modelled by the configuration it leaves; its replies
    to the sender are left out. *)

Definition with_sources (cfg : BotConfig) (l : list string) : BotConfig :=
  {| source_channels := l;
     target_channel := target_channel cfg;
     replacements := replacements cfg;
     forwarding_enabled := forwarding_enabled cfg |}.

Definition with_target (cfg : BotConfig) (t : string) : BotConfig :=
  {| source_channels := source_channels cfg;
     target_channel := t;
     replacements := replacements cfg;
     forwarding_enabled := forwarding_enabled cfg |}.

Definition with_enabled (cfg : BotConfig) (b : bool) : BotConfig :=
  {| source_channels := source_channels cfg;
     target_channel := target_channel cfg;
     replacements := replacements cfg;
     forwarding_enabled := b |}.

Definition with_replacements (cfg : BotConfig) (r : Replacements)
  : BotConfig :=
  {| source_channels := source_channels cfg;
     target_channel := target_channel cfg;
     replacements := r;
     forwarding_enabled := forwarding_enabled cfg |}.

(** [channel[1:]] when [channel] starts with the sigil. *)
Definition drop_sigil (channel : string) : string :=
  match channel with
  | String "@" rest => rest
  | _ => channel
  end.

(** The loop of [cmd_remove_channel] that looks for the stored entry. *)
Fixpoint find_channel (channel_to_remove : string) (l : list string)
  : option string :=
  match l with
  | [] => None
  | ch :: l' =>
      if String.eqb (lower (lstrip "@" ch)) (lower channel_to_remove)
      then Some ch
      else find_channel channel_to_remove l'
  end.

Definition cmd_remove_channel (cfg : BotConfig) (text : string) : BotConfig :=
  match split_None_1 text with
  | [_; arg] =>
      let channel_to_remove := drop_sigil (strip arg) in
      match find_channel channel_to_remove (source_channels cfg) with
      | Some found_channel =>
          if is_empty found_channel then cfg
          else with_sources cfg
                 (Py.remove_str found_channel (source_channels cfg))
      | None => cfg
      end
  | _ => cfg
  end.

Definition cmd_set_target (cfg : BotConfig) (text : string) : BotConfig :=
  match split_None_1 text with
  | [_; arg] =>
      let target := drop_sigil (strip arg) in
      if String.eqb (target_channel cfg) target then cfg
      else with_target cfg target
  | _ => cfg
  end.

Definition cmd_clear_target (cfg : BotConfig) : BotConfig :=
  if is_empty (target_channel cfg) then cfg
  else
    let cfg1 := with_target cfg EmptyString in
    if forwarding_enabled cfg1 then with_enabled cfg1 false else cfg1.

Definition cmd_start_forwarding (cfg : BotConfig) : BotConfig :=
  if is_empty (target_channel cfg) then cfg
  else
    match source_channels cfg with
    | [] => cfg
    | _ :: _ => with_enabled cfg true
    end.

Definition cmd_stop_forwarding (cfg : BotConfig) : BotConfig :=
  with_enabled cfg false.

(** The body shared by [cmd_add_link], [cmd_add_word] and
    [cmd_add_sentence], on the dict of the category. *)
Definition add_rule (text : string) (d : Dict) : Dict :=
  match split_None_1 text with
  | [_; arg] =>
      if negb (contains "|" arg) then d
      else
        let (old, new) := Py.split_sep_1 "|" arg in
        let old := strip old in
        let new := strip new in
        if is_empty old || is_empty new then d
        else Py.dict_set old new d
  | _ => d
  end.

(** The body shared by [cmd_remove_link], [cmd_remove_word] and
    [cmd_remove_sentence]. *)
Definition remove_rule (text : string) (d : Dict) : Dict :=
  match split_None_1 text with
  | [_; arg] =>
      let old := strip arg in
      if Py.dict_mem old d then Py.dict_del old d else d
  | _ => d
  end.

Definition with_links (r : Replacements) (d : Dict) : Replacements :=
  {| links := d; words := words r; sentences := sentences r |}.

Definition with_words (r : Replacements) (d : Dict) : Replacements :=
  {| links := links r; words := d; sentences := sentences r |}.

Definition with_sentences (r : Replacements) (d : Dict) : Replacements :=
  {| links := links r; words := words r; sentences := d |}.

Definition cmd_add_link (cfg : BotConfig) (text : string) : BotConfig :=
  with_replacements cfg
    (with_links (replacements cfg) (add_rule text (links (replacements cfg)))).

Definition cmd_remove_link (cfg : BotConfig) (text : string) : BotConfig :=
  with_replacements cfg
    (with_links (replacements cfg)
       (remove_rule text (links (replacements cfg)))).

Definition cmd_add_word (cfg : BotConfig) (text : string) : BotConfig :=
  with_replacements cfg
    (with_words (replacements cfg) (add_rule text (words (replacements cfg)))).

Definition cmd_remove_word (cfg : BotConfig) (text : string) : BotConfig :=
  with_replacements cfg
    (with_words (replacements cfg)
       (remove_rule text (words (replacements cfg)))).

Definition cmd_add_sentence (cfg : BotConfig) (text : string) : BotConfig :=
  with_replacements cfg
    (with_sentences (replacements cfg)
       (add_rule text (sentences (replacements cfg)))).

Definition cmd_remove_sentence (cfg : BotConfig) (text : string) : BotConfig :=
  with_replacements cfg
    (with_sentences (replacements cfg)
       (remove_rule text (sentences (replacements cfg)))).

Definition no_rules : Replacements :=
  {| links := []; words := []; sentences := [] |}.

(** [cmd_clear_replacements]; with no field at all [parts[1]] raises and
    nothing changes either. *)
Definition cmd_clear_replacements (cfg : BotConfig) (text : string)
  : BotConfig :=
  match Py.split_None text with
  | _ :: second :: _ =>
      let replacement_type := lower second in
      let r := replacements cfg in
      let clear (count : nat) (cleared : Replacements) :=
        if Nat.eqb count 0 then cfg else with_replacements cfg cleared in
      if String.eqb replacement_type "all"
      then clear (List.length (links r) + List.length (words r)
                  + List.length (sentences r)) no_rules
      else if String.eqb replacement_type "links"
      then clear (List.length (links r)) (with_links r [])
      else if String.eqb replacement_type "words"
      then clear (List.length (words r)) (with_words r [])
      else if String.eqb replacement_type "sentences"
      then clear (List.length (sentences r)) (with_sentences r [])
      else cfg
  | _ => cfg
  end.

(** [cmd_add_admin] and [cmd_remove_admin], on the list of administrators. *)
Definition cmd_add_admin (admins : list Z) (text : string) : list Z :=
  match Py.split_None text with
  | [_; arg] =>
      match Py.int arg with
      | Some new_admin_id =>
          if Py.mem_int new_admin_id admins then admins
          else (admins ++ [new_admin_id])%list
      | None => admins
      end
  | _ => admins
  end.

Definition cmd_remove_admin (admins : list Z) (user_id : Z) (text : string)
  : list Z :=
  match Py.split_None text with
  | [_; arg] =>
      match Py.int arg with
      | Some admin_to_remove =>
          if Z.eqb admin_to_remove user_id then admins
          else if Py.mem_int admin_to_remove admins
          then Py.remove_int admin_to_remove admins
          else admins
      | None => admins
      end
  | _ => admins
  end.

(** ** Updates and their routing *)

Module Updates.

(** A private message: its text, the id of the sender, the id of the
    chat. *)
Record Message : Type := {
  msg_text : option string;
  msg_from : Z;
  msg_chat : Z
}.

Record CallbackQuery : Type := {
  cb_from : Z;
  cb_chat : Z;
  cb_data : string
}.

Record Update : Type := {
  channel_post : option Post;
  message : option Message;
  callback_query : option CallbackQuery
}.

End Updates.

(** The state of the bot: the configuration, its list of administrators
    ([config.admin_users]) and the attribute [_expecting_first_admin_id]
    when it is set. *)
Record Bot : Type := {
  config : BotConfig;
  admin_users : list Z;
  expecting_first_admin_id : option string
}.

Definition is_admin (bot : Bot) (user_id : Z) : bool :=
  Py.mem_int user_id (admin_users bot).

Definition with_config (bot : Bot) (cfg : BotConfig) : Bot :=
  {| config := cfg;
     admin_users := admin_users bot;
     expecting_first_admin_id := expecting_first_admin_id bot |}.

Definition with_admins (bot : Bot) (l : list Z) : Bot :=
  {| config := config bot;
     admin_users := l;
     expecting_first_admin_id := expecting_first_admin_id bot |}.

Definition with_expecting (bot : Bot) (e : option string) : Bot :=
  {| config := config bot;
     admin_users := admin_users bot;
     expecting_first_admin_id := e |}.

Definition same_chat (e : option string) (chat_id : string) : bool :=
  match e with
  | Some c => String.eqb c chat_id
  | None => false
  end.

(** [handle_message], by the state it leaves.  The tests are in the order
    of the source. *)
Definition handle_message (bot : Bot) (m : Updates.Message) : Bot :=
  match Updates.msg_text m with
  | None => bot
  | Some raw =>
      let text := strip raw in
      let user_id := Updates.msg_from m in
      let chat_id := str_int (Updates.msg_chat m) in
      let on_config (f : BotConfig -> BotConfig) :=
        with_config bot (f (config bot)) in
      if startswith "/start" text then
        match admin_users bot with
        | [] => with_expecting bot (Some chat_id)
        | _ :: _ => bot
        end
      else if is_admin bot user_id then
        if startswith "/status" text then bot
        else if startswith "/admin" text then bot
        else if startswith "/channels" text then bot
        else if startswith "/target" text then bot
        else if startswith "/replacements" text then bot
        else if startswith "/start_forwarding" text
        then on_config cmd_start_forwarding
        else if startswith "/stop_forwarding" text
        then on_config cmd_stop_forwarding
        else if startswith "/add_admin" text
        then with_admins bot (cmd_add_admin (admin_users bot) text)
        else if startswith "/remove_admin" text
        then with_admins bot (cmd_remove_admin (admin_users bot) user_id text)
        else if startswith "/add_channel" text
        then on_config (fun c => cmd_add_channel c text)
        else if startswith "/remove_channel" text
        then on_config (fun c => cmd_remove_channel c text)
        else if startswith "/set_target" text
        then on_config (fun c => cmd_set_target c text)
        else if startswith "/clear_target" text
        then on_config cmd_clear_target
        else if startswith "/add_link" text
        then on_config (fun c => cmd_add_link c text)
        else if startswith "/remove_link" text
        then on_config (fun c => cmd_remove_link c text)
        else if startswith "/add_word" text
        then on_config (fun c => cmd_add_word c text)
        else if startswith "/remove_word" text
        then on_config (fun c => cmd_remove_word c text)
        else if startswith "/add_sentence" text
        then on_config (fun c => cmd_add_sentence c text)
        else if startswith "/remove_sentence" text
        then on_config (fun c => cmd_remove_sentence c text)
        else if startswith "/clear_replacements" text
        then on_config (fun c => cmd_clear_replacements c text)
        else if startswith "/help" text then bot
        else
          match admin_users bot with
          | [] =>
              if same_chat (expecting_first_admin_id bot) chat_id then
                match Py.int (strip text) with
                | Some potential_admin_id =>
                    with_expecting
                      (with_admins bot
                         (admin_users bot ++ [potential_admin_id])%list)
                      None
                | None => bot
                end
              else bot
          | _ :: _ => bot
          end
      else bot
  end.

(** [handle_callback_query], by the state it leaves: of the buttons only
    the clearing ones change it. *)
Definition handle_callback_query (bot : Bot) (q : Updates.CallbackQuery) : Bot :=
  let data := Updates.cb_data q in
  let on_config (f : BotConfig -> BotConfig) :=
    with_config bot (f (config bot)) in
  if negb (is_admin bot (Updates.cb_from q)) then bot
  else if String.eqb data "clear_target_confirm"
  then on_config cmd_clear_target
  else if String.eqb data "clear_links"
  then on_config (fun c => cmd_clear_replacements c "/clear_replacements links")
  else if String.eqb data "clear_words"
  then on_config (fun c => cmd_clear_replacements c "/clear_replacements words")
  else if String.eqb data "clear_sentences"
  then on_config
         (fun c => cmd_clear_replacements c "/clear_replacements sentences")
  else if String.eqb data "clear_all_replacements"
  then on_config (fun c => cmd_clear_replacements c "/clear_replacements all")
  else bot.

(** [process_update], by the state it leaves: a channel post is forwarded
    and changes nothing, a message or a button press goes to its
    handler. *)
Definition process_update (bot : Bot) (u : Updates.Update) : Bot :=
  match Updates.channel_post u with
  | Some _ => bot
  | None =>
      match Updates.message u with
      | Some m => handle_message bot m
      | None =>
          match Updates.callback_query u with
          | Some q => handle_callback_query bot q
          | None => bot
          end
      end
  end.

(** The events of an update: those of [handle_channel_post] when it
    carries a channel post (the replies to commands are left out). *)
Definition update_events (bot : Bot) (u : Updates.Update) : list event :=
  match Updates.channel_post u with
  | Some post => handle_channel_post (config bot) post
  | None => []
  end.

(** A run of the bot over a list of updates: the final state and the
    events of the channel posts. *)
Fixpoint run (bot : Bot) (us : list Updates.Update) : Bot * list event :=
  match us with
  | [] => (bot, [])
  | u :: us' =>
      let (bot', evs) := run (process_update bot u) us' in
      (bot', (update_events bot u ++ evs)%list)
  end.

(** A well-formed dict of rules: no empty key, no empty value, no key
    twice. *)
Definition rule_ok (rule : string * string) : Prop :=
  fst rule <> EmptyString /\ snd rule <> EmptyString.

Definition dict_ok (d : Dict) : Prop :=
  Forall rule_ok d /\ NoDup (map fst d).

Definition rules_ok (r : Replacements) : Prop :=
  dict_ok (links r) /\ dict_ok (words r) /\ dict_ok (sentences r).

(** A post from the sample channel with the given media, text and
    caption. *)
Definition sample_post (ph : list Media) (v d a : option Media)
           (txt cap : option string) : Post :=
  {| chat := {| id := (-100123)%Z; username := Some "NewsCh" |};
     message_id := 44%Z;
     text := txt;
     caption := cap;
     photo := ph;
     video := v;
     document := d;
     animation := a |}.

(** The template of a replacement value taken literally. *)
Fixpoint lits (s : string) : PyRe.template :=
  match s with
  | EmptyString => []
  | String c s' => PyRe.Lit c :: lits s'
  end.

(** Sample values: a configuration with one source, a post with a photo in
    two sizes, and a post without recognised media or text. *)
Definition sample_config (enabled : bool) (target : string) : BotConfig :=
  {| source_channels := ["@NewsCh"];
     target_channel := target;
     replacements := {| links := [("old.com", "new.com")];
                        words := [("car", "bus"); ("tram", "C:\dir")];
                        sentences := [] |};
     forwarding_enabled := enabled |}.

Definition sample_photo_post (handle cap : option string) : Post :=
  {| chat := {| id := (-100123)%Z; username := handle |};
     message_id := 42%Z;
     text := None;
     caption := cap;
     photo := [ {| file_id := "small" |}; {| file_id := "large" |} ];
     video := None;
     document := None;
     animation := None |}.

Definition sample_other_post (cap : option string) : Post :=
  {| chat := {| id := (-100123)%Z; username := Some "NewsCh" |};
     message_id := 43%Z;
     text := None;
     caption := cap;
     photo := [];
     video := None;
     document := None;
     animation := None |}.

(** A configuration whose word rules are all well formed. *)
Definition sound_config : BotConfig :=
  {| source_channels := ["@NewsCh"];
     target_channel := "-100777";
     replacements := {| links := [("old.com", "new.com")];
                        words := [("car", "bus")];
                        sentences := [] |};
     forwarding_enabled := true |}.

(** Sample states and updates. *)
Definition sample_bot (admins : list Z) (enabled : bool) : Bot :=
  {| config := sample_config enabled "-100777";
     admin_users := admins;
     expecting_first_admin_id := None |}.

Definition sample_message (sender : Z) (t : string) : Updates.Message :=
  {| Updates.msg_text := Some t;
     Updates.msg_from := sender;
     Updates.msg_chat := sender |}.

Definition text_update (sender : Z) (t : string) : Updates.Update :=
  {| Updates.channel_post := None;
     Updates.message := Some (sample_message sender t);
     Updates.callback_query := None |}.

Definition post_update (p : Post) : Updates.Update :=
  {| Updates.channel_post := Some p;
     Updates.message := None;
     Updates.callback_query := None |}.

(** The stages in the words of the specification: the rules of a list
    are applied one after the other, each to the text the one before it
    left; a fault in a word rule ends the stage. *)
Definition replace_each (rules : Dict) (t : string) : string :=
  fold_left (fun acc rule => replace (fst rule) (snd rule) acc) rules t.

Definition sub_each (rules : Dict) (t : string) : result string :=
  fold_left
    (fun acc rule =>
       s <- acc ;; PyRe.sub (PyRe.word_pattern (fst rule)) (snd rule) s)
    rules (Ok t).




(** A text of ASCII characters only. *)
Definition is_ascii (s : string) : bool :=
  PyRe.all_chars (fun c => (ord c <? 128)%N) s.

(** * Properties *)

(** ** Sorting by key length *)

Section Sorting.

Lemma insert_by_len_perm (x : string * string) (l : Dict) :
  Permutation (insert_by_len x l) (x :: l).
Proof.
  induction l as [|y l IH]; simpl.
  - apply Permutation_refl.
  - destruct (Nat.ltb _ _).
    + apply perm_trans with (y :: x :: l).
      * apply perm_skip, IH.
      * apply perm_swap.
    + apply Permutation_refl.
Qed.

Lemma sorted_by_len_perm (d : Dict) : Permutation (sorted_by_len d) d.
Proof.
  induction d as [|x d IH]; simpl.
  - apply perm_nil.
  - eapply perm_trans; [apply insert_by_len_perm | apply perm_skip, IH].
Qed.

Lemma insert_by_len_sorted (x : string * string) (l : Dict) :
  StronglySorted longer_first l ->
  StronglySorted longer_first (insert_by_len x l).
Proof.
  induction 1 as [|y l Hs IH Hall]; simpl.
  - constructor; constructor.
  - destruct (Nat.ltb (String.length (fst x)) (String.length (fst y))) eqn:E.
    + apply Nat.ltb_lt in E.
      constructor; [exact IH|].
      apply Permutation_Forall with (x :: l).
      * apply Permutation_sym, insert_by_len_perm.
      * constructor; [unfold longer_first; lia | exact Hall].
    + apply Nat.ltb_ge in E.
      constructor; [constructor; assumption|].
      constructor; [exact E|].
      eapply Forall_impl; [|exact Hall].
      unfold longer_first; intros z Hz; lia.
Qed.

Lemma sorted_by_len_sorted (d : Dict) :
  StronglySorted longer_first (sorted_by_len d).
Proof.
  induction d as [|x d IH]; simpl.
  - constructor.
  - apply insert_by_len_sorted, IH.
Qed.

Lemma sorted_by_len_In (d : Dict) (x : string * string) :
  In x (sorted_by_len d) <-> In x d.
Proof.
  split; apply Permutation_in;
    [|apply Permutation_sym]; apply sorted_by_len_perm.
Qed.

(** The sort is stable: rules already in descending order stay put. *)
Lemma sorted_by_len_stable (d : Dict) :
  StronglySorted longer_first d -> sorted_by_len d = d.
Proof.
  induction 1 as [|x d Hs IH Hall]; simpl; [reflexivity|].
  rewrite IH. destruct d as [|y d]; [reflexivity|]. simpl.
  inversion Hall as [|? ? Hxy _]; subst. unfold longer_first in Hxy.
  destruct (Nat.ltb_spec (String.length (fst x)) (String.length (fst y)));
    [lia | reflexivity].
Qed.

End Sorting.

(** ** The engine: stage order and failure *)

Section Engine.

Variable cfg : BotConfig.

Lemma is_empty_false (s : string) : s <> EmptyString -> is_empty s = false.
Proof. destruct s; [congruence | reflexivity]. Qed.

(** A word rule whose value is not a well-formed template makes the word
    loop raise, whatever the text. *)
Lemma words_loop_malformed (l : Dict) (old new : string) (e : exn) :
  In (old, new) l -> PyRe.parse_template new = Raise e ->
  forall t, exists e', words_loop l t = Raise e'.
Proof.
  induction l as [|[o n] l IH]; intros Hin Hp t; [destruct Hin|].
  simpl. unfold PyRe.sub.
  destruct (PyRe.parse_template n) as [tpl|e0] eqn:En; simpl.
  - destruct Hin as [Heq|Hin]; [inversion Heq; subst; congruence|].
    apply IH; assumption.
  - exists e0; reflexivity.
Qed.

Lemma run_stages_malformed (r : Replacements) (old new : string) (e : exn) :
  In (old, new) (words r) -> PyRe.parse_template new = Raise e ->
  forall t, exists e', run_stages r t = Raise e'.
Proof.
  intros Hin Hp t. unfold run_stages, words_stage.
  destruct (words_loop_malformed (sorted_by_len (words r)) old new e
              (proj2 (sorted_by_len_In _ _) Hin) Hp
              (links_stage (links r) t)) as [e' He'].
  exists e'. rewrite He'. reflexivity.
Qed.

(** The pipeline raises exactly when the value of some word rule is not a
    well-formed template; the text plays no part in it. *)
Lemma words_loop_raises (l : Dict) :
  forall t e, words_loop l t = Raise e ->
              exists old new e', In (old, new) l
                                 /\ PyRe.parse_template new = Raise e'.
Proof.
  induction l as [|[o n] l IH]; intros t e H; [discriminate|].
  simpl in H. unfold PyRe.sub in H.
  destruct (PyRe.parse_template n) as [tpl|e0] eqn:En; simpl in H.
  - destruct (IH _ _ H) as [old [new [e' [Hin Hp]]]].
    exists old, new, e'. split; [right; exact Hin | exact Hp].
  - exists o, n, e0. split; [left; reflexivity | exact En].
Qed.

Lemma run_stages_raises_iff (r : Replacements) (t : string) :
  (exists e, run_stages r t = Raise e) <->
  (exists old new e, In (old, new) (words r)
                     /\ PyRe.parse_template new = Raise e).
Proof.
  split.
  - intros [e H]. unfold run_stages, words_stage in H.
    destruct (words_loop _ _) as [t2|e2] eqn:Ew; [discriminate|].
    destruct (words_loop_raises _ _ _ Ew) as [old [new [e' [Hin Hp]]]].
    exists old, new, e'. split; [apply sorted_by_len_In, Hin | exact Hp].
  - intros [old [new [e [Hin Hp]]]].
    exact (run_stages_malformed r old new e Hin Hp t).
Qed.

(** C1: a fault in any stage is caught by the call as a whole: the
    original text is returned and the fault is logged.  Whatever the
    input, the text returned is the input itself or the result of the
    complete pipeline, never an intermediate text. *)
Theorem apply_replacements_fail_safe (text : string) :
  (forall e, text <> EmptyString ->
             run_stages (replacements cfg) text = Raise e ->
             apply_replacements cfg text
             = (text, [Log ERROR (ErrorApplyingReplacements e)]))
  /\ (apply cfg text = text
      \/ run_stages (replacements cfg) text = Ok (apply cfg text)).
Proof.
  unfold apply, apply_replacements. split.
  - intros e Hne Hr. rewrite (is_empty_false _ Hne), Hr. reflexivity.
  - destruct (is_empty text); [left; reflexivity|].
    destruct (run_stages (replacements cfg) text) as [m|e];
      [right | left]; reflexivity.
Qed.

Lemma stages_in_order (text : string) :
  text <> EmptyString ->
  exists ws ss : Dict,
    Permutation ws (words (replacements cfg))
    /\ StronglySorted longer_first ws
    /\ Permutation ss (sentences (replacements cfg))
    /\ StronglySorted longer_first ss
    /\ apply cfg text
       = match words_loop ws (links_stage (links (replacements cfg)) text)
         with
         | Ok t2 => sentences_loop ss t2
         | Raise _ => text
         end.
Proof.
  intros Hne.
  exists (sorted_by_len (words (replacements cfg))),
         (sorted_by_len (sentences (replacements cfg))).
  repeat split;
    try apply sorted_by_len_perm; try apply sorted_by_len_sorted.
  unfold apply, apply_replacements, run_stages, words_stage,
    sentences_stage.
  rewrite (is_empty_false _ Hne).
  destruct (words_loop _ _); reflexivity.
Qed.

End Engine.

(** The loops of the engine are the stages as the specification words
    them. *)
Lemma links_stage_fold (d : Dict) (t : string) :
  links_stage d t = replace_each d t.
Proof.
  revert t. induction d as [|[old new] d IH]; intros t; [reflexivity|].
  cbn [links_stage]. rewrite IH. reflexivity.
Qed.

Lemma sentences_loop_fold (d : Dict) (t : string) :
  sentences_loop d t = replace_each d t.
Proof.
  revert t. induction d as [|[old new] d IH]; intros t; [reflexivity|].
  cbn [sentences_loop]. rewrite IH. reflexivity.
Qed.

Lemma words_loop_fold (d : Dict) (t : string) :
  words_loop d t = sub_each d t.
Proof.
  unfold sub_each. revert t.
  induction d as [|[old new] d IH]; intros t; [reflexivity|].
  cbn [words_loop fold_left bind fst snd].
  destruct (PyRe.sub (PyRe.word_pattern old) new t) as [s|e];
    cbn [bind]; [apply IH|].
  clear. induction d as [|r d IH]; [reflexivity | exact IH].
Qed.

(** C2: on a non-empty text the three stages run in the order links, words,
    sentences, each on the output of the one before; the word and the
    sentence rules are taken in descending order of key length, so the
    longer key ["hello world"] is tried before ["hello"].  The closed
    cases pin the order: a link rule feeds the word rules, a word rule
    feeds the sentence rules, and nothing flows the other way. *)
Theorem apply_stage_order :
  (forall cfg text,
      text <> EmptyString ->
      exists ws ss : Dict,
        Permutation ws (words (replacements cfg))
        /\ StronglySorted longer_first ws
        /\ Permutation ss (sentences (replacements cfg))
        /\ StronglySorted longer_first ss
        /\ apply cfg text
           = match
               sub_each ws (replace_each (links (replacements cfg)) text)
             with
             | Ok t2 => replace_each ss t2
             | Raise _ => text
             end)
  /\ apply (rules_only [] [("hello", "hi"); ("hello world", "greetings")] [])
           "hello world" = "greetings"
  /\ apply (rules_only [] [] [("hello", "hi"); ("hello world", "greetings")])
           "hello world" = "greetings"
  /\ apply (rules_only [("hullo", "hello")]
              [("hello", "hi"); ("hello world", "greetings")]
              [("now", "today")]) "hullo world now" = "greetings today"
  /\ apply (rules_only [("hullo", "hello")] [("hello", "hi")] []) "hullo"
     = "hi"
  /\ apply (rules_only [] [("car", "bus")] [("my bus", "our coach")]) "my car"
     = "our coach"
  /\ apply (rules_only [("hi", "yo")] [("hello", "hi")] []) "hello" = "hi"
  /\ apply (rules_only [] [("car", "bus")] [("auto", "car")]) "auto" = "car"
  /\ apply (rules_only [("a", "b"); ("b", "c")] [] []) "a" = "c".
Proof.
  split; [|repeat split; reflexivity].
  intros cfg text Hne.
  destruct (stages_in_order cfg text Hne)
    as [ws [ss [Pw [Sw [Ps [Ss E]]]]]].
  exists ws, ss. repeat (split; [assumption|]).
  rewrite E, words_loop_fold, links_stage_fold.
  destruct (sub_each ws _); [apply sentences_loop_fold | reflexivity].
Qed.

Lemma apply_stage_order_witness :
  (exists ws ss : Dict,
      Permutation ws [("hello", "hi"); ("hello world", "greetings")]
      /\ StronglySorted longer_first ws
      /\ Permutation ss [("now", "today")]
      /\ StronglySorted longer_first ss
      /\ apply (rules_only [("hullo", "hello")]
                  [("hello", "hi"); ("hello world", "greetings")]
                  [("now", "today")]) "hullo world now"
         = match
             sub_each ws (replace_each [("hullo", "hello")] "hullo world now")
           with
           | Ok t2 => replace_each ss t2
           | Raise _ => "hullo world now"
           end)
  /\ replace_each [("hullo", "hello")] "hullo world now" = "hello world now"
  /\ sub_each [("hello world", "greetings"); ("hello", "hi")] "hello world now"
     = Ok "greetings now"
  /\ replace_each [("now", "today")] "greetings now" = "greetings today"
  /\ apply (rules_only [("hullo", "hello")]
              [("hello", "hi"); ("hello world", "greetings")]
              [("now", "today")]) "hullo world now" = "greetings today".
Proof.
  split.
  - apply (proj1 apply_stage_order
             (rules_only [("hullo", "hello")]
                [("hello", "hi"); ("hello world", "greetings")]
                [("now", "today")]) "hullo world now").
    discriminate.
  - repeat split; reflexivity.
Defined.

Lemma apply_replacements_fail_safe_witness :
  links_stage [("old.com", "new.com")] "old.com car" = "new.com car"
  /\ apply_replacements
       (rules_only [("old.com", "new.com")] [("car", "C:\dir")] [])
       "old.com car"
     = ("old.com car",
        [Log ERROR (ErrorApplyingReplacements (re_error "bad escape"))]).
Proof.
  split; [reflexivity|].
  apply (proj1 (apply_replacements_fail_safe
                  (rules_only [("old.com", "new.com")] [("car", "C:\dir")] [])
                  "old.com car")).
  - discriminate.
  - reflexivity.
Defined.

(** ** Texts no rule matches *)

Section Fixpoints.

Lemma contains_empty (s : string) : contains EmptyString s = true.
Proof. destruct s; reflexivity. Qed.

(** [str.replace] leaves a text without the old substring as it is. *)
Lemma replace_absent (old new s : string) :
  contains old s = false -> replace old new s = s.
Proof.
  destruct old as [|a old'].
  - rewrite contains_empty; discriminate.
  - unfold replace. induction s as [|c s IH]; intros H; [reflexivity|].
    cbn [contains] in H. apply orb_false_iff in H as [Hp Hc].
    cbn [replace_from]. rewrite Hp, (IH Hc). reflexivity.
Qed.

(** [re.sub] leaves a text the pattern does not match as it is. *)
Lemma sub_from_absent (p : PyRe.pattern) (t : PyRe.template) (s : string) :
  forall prev, PyRe.search_from p prev s = false ->
               PyRe.sub_from p t prev 0 s = s.
Proof.
  induction s as [|c s IH]; intros prev H; cbn [PyRe.search_from] in H;
    cbn [PyRe.sub_from];
    destruct (PyRe.match_here p prev _); try discriminate;
    [reflexivity|].
  rewrite (IH _ H). reflexivity.
Qed.

Lemma existsb_false {A : Type} (f : A -> bool) (l : list A) :
  existsb f l = false -> forall x, In x l -> f x = false.
Proof.
  induction l as [|y l IH]; intros H x Hin; [destruct Hin|].
  simpl in H. apply orb_false_iff in H as [Hy Hl].
  destruct Hin as [->|Hin]; [exact Hy | exact (IH Hl x Hin)].
Qed.

Lemma links_stage_absent (d : Dict) (s : string) :
  (forall rule, In rule d -> key_in s rule = false) ->
  links_stage d s = s.
Proof.
  induction d as [|[old new] d IH]; intros H; [reflexivity|].
  simpl. rewrite (replace_absent old new s (H (old, new) (or_introl eq_refl))).
  apply IH. intros rule Hin. apply H. right; exact Hin.
Qed.

Lemma sentences_loop_absent (d : Dict) (s : string) :
  (forall rule, In rule d -> key_in s rule = false) ->
  sentences_loop d s = s.
Proof.
  induction d as [|[old new] d IH]; intros H; [reflexivity|].
  simpl. rewrite (replace_absent old new s (H (old, new) (or_introl eq_refl))).
  apply IH. intros rule Hin. apply H. right; exact Hin.
Qed.

(** The word loop on such a text returns it, unless a template is
    malformed. *)
Lemma words_loop_absent (d : Dict) (s : string) :
  (forall rule, In rule d -> word_in s rule = false) ->
  words_loop d s = Ok s \/ exists e, words_loop d s = Raise e.
Proof.
  induction d as [|[old new] d IH]; intros H; [left; reflexivity|].
  simpl. unfold PyRe.sub.
  destruct (PyRe.parse_template new) as [tpl|e]; simpl.
  - rewrite sub_from_absent by (apply (H (old, new)); left; reflexivity).
    apply IH. intros rule Hin. apply H. right; exact Hin.
  - right. exists e. reflexivity.
Qed.

(** A text in which no key of the ruleset matches is a fixed point of the
    engine. *)
Lemma apply_absent (cfg : BotConfig) (s : string) :
  key_occurs (replacements cfg) s = false -> apply cfg s = s.
Proof.
  unfold key_occurs. intros H.
  apply orb_false_iff in H as [H Hs]. apply orb_false_iff in H as [Hl Hw].
  unfold apply, apply_replacements.
  destruct (is_empty s); [reflexivity|].
  unfold run_stages, words_stage, sentences_stage.
  rewrite (links_stage_absent _ _ (existsb_false _ _ Hl)).
  destruct (words_loop_absent (sorted_by_len (words (replacements cfg))) s)
    as [Hok|[e He]].
  - intros rule Hin. apply (existsb_false _ _ Hw).
    apply sorted_by_len_In, Hin.
  - rewrite Hok. simpl. apply sentences_loop_absent.
    intros rule Hin. apply (existsb_false _ _ Hs).
    apply sorted_by_len_In, Hin.
  - rewrite He. reflexivity.
Qed.

End Fixpoints.

(** C8: when no key of the ruleset matches in the once-transformed text,
    transforming it again changes nothing. *)
Theorem apply_idempotent (cfg : BotConfig) (t : string) :
  key_occurs (replacements cfg) (apply cfg t) = false ->
  apply cfg (apply cfg t) = apply cfg t.
Proof.
  apply apply_absent.
Qed.

Lemma apply_idempotent_witness :
  apply (rules_only [("old.com", "new.com")] [("car", "bus")]
           [("Good Morning", "Hi")])
    "Good Morning, visit old.com by Car" = "Hi, visit new.com by bus"
  /\ apply (rules_only [("old.com", "new.com")] [("car", "bus")]
              [("Good Morning", "Hi")])
       (apply (rules_only [("old.com", "new.com")] [("car", "bus")]
                 [("Good Morning", "Hi")])
          "Good Morning, visit old.com by Car")
     = apply (rules_only [("old.com", "new.com")] [("car", "bus")]
                [("Good Morning", "Hi")])
         "Good Morning, visit old.com by Car".
Proof.
  split; [reflexivity|].
  apply (apply_idempotent
           (rules_only [("old.com", "new.com")] [("car", "bus")]
              [("Good Morning", "Hi")])
           "Good Morning, visit old.com by Car").
  reflexivity.
Defined.

(** ** Word rules: boundaries and replacement values *)

Section WordRules.

Lemma is_word_lower_char (c : ascii) :
  PyRe.is_word (lower_char c) = PyRe.is_word c.
Proof.
  destruct c as [[] [] [] [] [] [] [] []]; reflexivity.
Qed.




(** A replacement value without a backslash compiles to itself. *)
Lemma parse_template_plain (repl : string) :
  contains "\" repl = false -> PyRe.parse_template repl = Ok (lits repl).
Proof.
  induction repl as [|c r IH]; intros H; [reflexivity|].
  cbn [contains startswith] in H.
  apply orb_false_iff in H as [Hc Hr].
  rewrite andb_true_r, Ascii.eqb_sym in Hc.
  cbn [PyRe.parse_template]. rewrite Hc. cbn [negb].
  rewrite (IH Hr). reflexivity.
Qed.

Lemma expand_lits (repl m : string) : PyRe.expand (lits repl) m = repl.
Proof.
  induction repl as [|c r IH]; simpl; [reflexivity|].
  rewrite IH. reflexivity.
Qed.

End WordRules.





(** With a word character after it the same key does match. *)
Example trailing_nonword_key_before_word :
  apply (rules_only [] [("c++", "x")] []) "c++y and c++_" = "xy and x_".
Proof. reflexivity. Qed.

(** Whole-word, case-insensitive matching of word keys. *)
Example word_rule_whole_word :
  apply (rules_only [] [("car", "bus")] []) "The CARPET is red"
  = "The CARPET is red"
  /\ apply (rules_only [] [("car", "bus")] []) "My CAR, your Car; a_car"
     = "My bus, your bus; a_car".
Proof. split; reflexivity. Qed.

(** C3: the value of a word rule is handed to [re.sub] as a replacement
    template, not taken literally as the values of link and sentence rules
    are.  A backslash in it is decoded ([\n] becomes a line feed), and a
    value that is not a well-formed template makes the whole call return
    the input unchanged. *)
Theorem word_value_compiled_as_template :
  apply (rules_only [] [("car", "a\nb")] []) "my car"
  = ("my a" ++ String (chr 10) "b")%string
  /\ apply (rules_only [] [("car", "C:\dir")] []) "my car" = "my car"
  /\ apply (rules_only [("car", "C:\dir")] [] []) "my car" = "my C:\dir"
  /\ apply (rules_only [] [] [("car", "a\nb")]) "my car" = "my a\nb".
Proof.
  repeat split; reflexivity.
Qed.

(** ** The channel matcher *)

Section Matcher.

(** The loop finds a source exactly when some entry matches by id or by
    handle. *)
Lemma is_source_channel_iff (sources : list string) (cid uname : string) :
  is_source_channel sources cid uname = true <->
  exists source,
    In source sources
    /\ (cid = lstrip "@" source
        \/ lower uname = lower (lstrip "@" source)).
Proof.
  induction sources as [|x l IH]; simpl.
  - split; [discriminate | intros [? [[] _]]].
  - destruct (source_matches cid uname x) eqn:E.
    + split; [intros _ | reflexivity].
      exists x. split; [left; reflexivity|].
      unfold source_matches in E. apply orb_true_iff in E.
      destruct E as [E|E]; apply String.eqb_eq in E; auto.
    + rewrite IH. split; intros [s [Hin Hm]].
      * exists s. split; [right; exact Hin | exact Hm].
      * destruct Hin as [->|Hin]; [|exists s; split; assumption].
        unfold source_matches in E. apply orb_false_iff in E as [E1 E2].
        apply String.eqb_neq in E1. apply String.eqb_neq in E2.
        destruct Hm; contradiction.
Qed.

Lemma lower_empty (s : string) : lower s = EmptyString -> s = EmptyString.
Proof. destruct s; [reflexivity | discriminate]. Qed.

(** With no entry that is stripped to the empty string, a post without a
    handle is matched by its id alone. *)
Lemma handleless_matched_by_id (sources : list string) (cid : string) :
  (forall source, In source sources -> lstrip "@" source <> EmptyString) ->
  is_source_channel sources cid (get_str None) = true <->
  exists source, In source sources /\ cid = lstrip "@" source.
Proof.
  intros Hne. rewrite is_source_channel_iff.
  split; intros [x [Hin H]]; exists x; (split; [exact Hin|]); auto.
  destruct H as [H|H]; [exact H|].
  symmetry in H. apply lower_empty in H. destruct (Hne x Hin H).
Qed.

Lemma lstrip_sigils (entry : string) :
  PyRe.all_chars (Ascii.eqb "@") entry = true ->
  lstrip "@" entry = EmptyString.
Proof.
  induction entry as [|c s IH]; cbn [PyRe.all_chars lstrip];
    [reflexivity|].
  intros H. apply andb_true_iff in H as [Hc Hs].
  rewrite Ascii.eqb_sym, Hc. exact (IH Hs).
Qed.

Lemma mem_str_In (x : string) (l : list string) :
  mem_str x l = true <-> In x l.
Proof.
  induction l as [|y l IH]; simpl; [split; [discriminate | intros []]|].
  rewrite orb_true_iff, IH, String.eqb_eq.
  split; intros [H|H]; auto.
Qed.

End Matcher.

(** C5: the matcher at the entry ["@"] and a post without a handle.  The
    entry is stripped to the empty string, the missing handle is read as
    the empty string, and the two compare equal: the post is taken for a
    source post although neither its id nor a handle of its own was
    configured.  The entry ["@NewsCh"] matches the handle ["newsch"] and
    not the id [-100123]. *)
Theorem sigil_entry_matches_handleless_post :
  is_source_channel ["@"] (str_int (-100123)) (get_str None) = true
  /\ is_source_channel ["@NewsCh"] (str_int (-100999)) (get_str (Some "newsch"))
     = true
  /\ is_source_channel ["@NewsCh"] (str_int (-100123)) (get_str None) = false
  /\ is_source_channel ["@NewsCh"; "-100123"] (str_int (-100123))
       (get_str None) = true
  /\ is_source_channel ["@News"] (str_int (-100999))
       (get_str (Some "newsch")) = false.
Proof.
  repeat split; reflexivity.
Qed.

(** C9: an entry made of sigils only is stripped to the empty string and
    matches every post of a channel without a handle; the add-channel
    command with the argument ["@"] leaves such an entry in the source
    list. *)
Theorem sigil_only_entry_matches_all_handleless :
  (forall entry : string,
      PyRe.all_chars (Ascii.eqb "@") entry = true ->
      lstrip "@" entry = EmptyString
      /\ forall (sources : list string) (post : Post),
          In entry sources ->
          username (chat post) = None ->
          is_source_channel sources (str_int (id (chat post)))
            (get_str (username (chat post))) = true)
  /\ (forall (cfg : BotConfig) (post : Post),
         username (chat post) = None ->
         is_source_channel
           (source_channels (cmd_add_channel cfg "/add_channel @"))
           (str_int (id (chat post))) (get_str (username (chat post)))
         = true).
Proof.
  split.
  - intros entry Hall. pose proof (lstrip_sigils entry Hall) as Hs.
    split; [exact Hs|]. intros sources post Hin Hu.
    apply is_source_channel_iff. exists entry. split; [exact Hin|].
    right. rewrite Hu, Hs. reflexivity.
  - intros cfg post Hu. apply is_source_channel_iff. rewrite Hu.
    unfold cmd_add_channel.
    replace (split_None_1 "/add_channel @") with ["/add_channel"; "@"]
      by reflexivity.
    replace (strip "@") with "@" by reflexivity. cbv iota beta.
    destruct (mem_str "" (map (lstrip "@") (source_channels cfg))) eqn:E;
      cbn [negb].
    + apply mem_str_In, in_map_iff in E. destruct E as [x [Hx Hin]].
      exists x. split; [exact Hin|]. right. rewrite Hx. reflexivity.
    + exists EmptyString. split; [|right; reflexivity].
      cbn [source_channels]. apply in_or_app. right. left. reflexivity.
Qed.

Lemma sigil_only_entry_matches_all_handleless_witness :
  lstrip "@" "@@" = EmptyString
  /\ is_source_channel ["newsch"; "@@"] (str_int (-100123)) (get_str None)
     = true.
Proof.
  destruct (proj1 sigil_only_entry_matches_all_handleless "@@" eq_refl)
    as [Hs Hm].
  split; [exact Hs|].
  exact (Hm ["newsch"; "@@"]
           {| chat := {| id := (-100123)%Z; username := None |};
              message_id := 7%Z; text := Some "hello"; caption := None;
              photo := []; video := None; document := None;
              animation := None |}
           (or_intror (or_introl eq_refl)) eq_refl).
Defined.

(** ** The forwarding decider *)

Section Decider.

Variable cfg : BotConfig.
Variable post : Post.

Let channel_id : string := str_int (id (chat post)).
Let channel_username : string := get_str (username (chat post)).
Let original_caption : string := get_str (caption post).
Let copy : ApiCall :=
  copy_message channel_id (target_channel cfg) (message_id post) None.

(** The engine logs nothing, or the one fault it caught. *)
Lemma apply_replacements_log (t : string) :
  snd (apply_replacements cfg t) = []
  \/ exists e,
      snd (apply_replacements cfg t)
      = [Log ERROR (ErrorApplyingReplacements e)].
Proof.
  unfold apply_replacements. destruct (is_empty t); [left; reflexivity|].
  destruct (run_stages (replacements cfg) t) as [m|e];
    [left | right; exists e]; reflexivity.
Qed.

Hypothesis enabled : forwarding_enabled cfg = true.
Hypothesis target_set : target_channel cfg <> EmptyString.
Hypothesis from_source :
  is_source_channel (source_channels cfg) channel_id channel_username
  = true.

(** When the three preconditions hold the post is forwarded. *)
Lemma handle_channel_post_forwards :
  handle_channel_post cfg post
  = (forward_channel_message cfg post
     ++ [Log INFO (Forwarded (str_or channel_username channel_id)
                     (target_channel cfg))])%list.
Proof.
  unfold handle_channel_post.
  rewrite enabled, (is_empty_false _ target_set).
  fold channel_id channel_username. rewrite from_source. reflexivity.
Qed.

End Decider.

(** Unfolds a forwarded post down to the request it sends: [Hen], [Htg] and
    [Hsrc] are the three preconditions. *)
Ltac forwarded cfg post Hen Htg Hsrc :=
  rewrite (handle_channel_post_forwards cfg post Hen Htg Hsrc);
  unfold forward_channel_message, apply in *;
  let Lt := fresh "Lt" in
  let Lc := fresh "Lc" in
  pose proof (apply_replacements_log cfg (get_str (text post))) as Lt;
  pose proof (apply_replacements_log cfg (get_str (caption post))) as Lc;
  destruct (apply_replacements cfg (get_str (text post))) as [? ?];
  destruct (apply_replacements cfg (get_str (caption post))) as [? ?];
  cbn [fst snd] in *;
  destruct Lt as [->|[? ->]]; destruct Lc as [->|[? ->]].

(** C4: the three preconditions are checked in the order enabled, target,
    source; a post that fails one is suppressed with a reason of its own:
    the call leaves one log record and nothing else, whatever the post and
    the rules are. *)
Theorem preconditions_suppress (cfg : BotConfig) (post : Post) :
  (forwarding_enabled cfg = false ->
   handle_channel_post cfg post = [Log DEBUG ForwardingDisabled]
   /\ outcome_of (handle_channel_post cfg post) = Some (Suppressed disabled))
  /\ (forwarding_enabled cfg = true ->
      target_channel cfg = EmptyString ->
      handle_channel_post cfg post = [Log WARNING TargetNotSet]
      /\ outcome_of (handle_channel_post cfg post)
         = Some (Suppressed target_unset))
  /\ (forwarding_enabled cfg = true ->
      target_channel cfg <> EmptyString ->
      is_source_channel (source_channels cfg) (str_int (id (chat post)))
        (get_str (username (chat post))) = false ->
      handle_channel_post cfg post
      = [Log DEBUG
           (NotSourceChannel
              (str_or (get_str (username (chat post)))
                 (str_int (id (chat post)))))]
      /\ outcome_of (handle_channel_post cfg post)
         = Some (Suppressed not_source)).
Proof.
  unfold handle_channel_post. split; [|split].
  - intros Hen. rewrite Hen. split; reflexivity.
  - intros Hen Htg. rewrite Hen, Htg. split; reflexivity.
  - intros Hen Htg Hsrc.
    rewrite Hen, (is_empty_false _ Htg), Hsrc. split; reflexivity.
Qed.

Lemma preconditions_suppress_witness :
  handle_channel_post (sample_config false "-100777")
    (sample_photo_post (Some "newsch") (Some "my tram"))
  = [Log DEBUG ForwardingDisabled]
  /\ handle_channel_post (sample_config true "")
       (sample_photo_post (Some "newsch") (Some "my tram"))
     = [Log WARNING TargetNotSet]
  /\ handle_channel_post (sample_config true "-100777")
       (sample_photo_post (Some "other") (Some "my tram"))
     = [Log DEBUG (NotSourceChannel "other")].
Proof.
  split; [|split].
  - apply (proj1 (preconditions_suppress (sample_config false "-100777")
                    (sample_photo_post (Some "newsch") (Some "my tram")))).
    reflexivity.
  - apply (proj1 (proj2 (preconditions_suppress (sample_config true "")
                    (sample_photo_post (Some "newsch") (Some "my tram"))))).
    + reflexivity.
    + reflexivity.
  - apply (proj2 (proj2 (preconditions_suppress
                    (sample_config true "-100777")
                    (sample_photo_post (Some "other") (Some "my tram"))))).
    + reflexivity.
    + discriminate.
    + reflexivity.
Defined.

(** C6: a photo post that passes the preconditions is sent again as the
    last (largest) size of its photo with the new caption when the engine
    changed the caption, and copied by message id when it did not. *)
Theorem photo_post_directive (cfg : BotConfig) (post : Post)
        (m : Media) (ms : list Media) :
  forwarding_enabled cfg = true ->
  target_channel cfg <> EmptyString ->
  is_source_channel (source_channels cfg) (str_int (id (chat post)))
    (get_str (username (chat post))) = true ->
  photo post = m :: ms ->
  (apply cfg (get_str (caption post)) <> get_str (caption post) ->
   outcome_of (handle_channel_post cfg post)
   = Some (Relayed
             (send_photo (target_channel cfg)
                (file_id (last (photo post) m))
                (Some (apply cfg (get_str (caption post)))))))
  /\ (apply cfg (get_str (caption post)) = get_str (caption post) ->
      outcome_of (handle_channel_post cfg post)
      = Some (Relayed
                (copy_message (str_int (id (chat post))) (target_channel cfg)
                   (message_id post) None))).
Proof.
  intros Hen Htg Hsrc Hph.
  assert (Hlast : last (photo post) m = last ms m).
  { rewrite Hph. destruct ms; reflexivity. }
  rewrite Hlast.
  split; intros Hcap; forwarded cfg post Hen Htg Hsrc; rewrite Hph;
    unfold largest_photo;
    match goal with
    | |- context [String.eqb ?a ?b] => destruct (String.eqb_spec a b)
    end; try contradiction; try congruence; reflexivity.
Qed.

(** C7: a post without photo, video, document, animation and text that
    passes the preconditions is always copied by message id; the copy
    carries the new caption when the post has a caption and the engine
    changed it, and no caption otherwise. *)
Theorem other_post_directive (cfg : BotConfig) (post : Post) :
  forwarding_enabled cfg = true ->
  target_channel cfg <> EmptyString ->
  is_source_channel (source_channels cfg) (str_int (id (chat post)))
    (get_str (username (chat post))) = true ->
  photo post = [] -> video post = None -> document post = None ->
  animation post = None -> get_str (text post) = EmptyString ->
  (get_str (caption post) <> EmptyString ->
   apply cfg (get_str (caption post)) <> get_str (caption post) ->
   outcome_of (handle_channel_post cfg post)
   = Some (Relayed
             (copy_message (str_int (id (chat post))) (target_channel cfg)
                (message_id post)
                (Some (apply cfg (get_str (caption post)))))))
  /\ (get_str (caption post) = EmptyString
      \/ apply cfg (get_str (caption post)) = get_str (caption post) ->
      outcome_of (handle_channel_post cfg post)
      = Some (Relayed
                (copy_message (str_int (id (chat post))) (target_channel cfg)
                   (message_id post) None))).
Proof.
  intros Hen Htg Hsrc Hph Hv Hd Ha Htx.
  split; [intros Hne Hcap | intros Hcap];
    forwarded cfg post Hen Htg Hsrc; rewrite Hph, Hv, Hd, Ha, Htx;
    cbn [is_empty negb];
    match goal with
    | |- context [String.eqb ?a ?b] => destruct (String.eqb_spec a b)
    end;
    try contradiction; try congruence;
    try (rewrite (is_empty_false _ Hne); reflexivity);
    destruct (is_empty (get_str (caption post))) eqn:E; try reflexivity;
    destruct Hcap as [Hcap|Hcap]; try congruence;
    rewrite Hcap in E; discriminate.
Qed.

Lemma photo_post_directive_witness :
  outcome_of (handle_channel_post sound_config
                (sample_photo_post (Some "newsch") (Some "my Car")))
  = Some (Relayed (send_photo "-100777" "large" (Some "my bus")))
  /\ outcome_of (handle_channel_post sound_config
                   (sample_photo_post (Some "newsch") (Some "my cart")))
     = Some (Relayed (copy_message "-100123" "-100777" 42 None)).
Proof.
  split.
  - apply (proj1 (photo_post_directive sound_config
                    (sample_photo_post (Some "newsch") (Some "my Car"))
                    {| file_id := "small" |} [ {| file_id := "large" |} ]
                    eq_refl ltac:(discriminate) eq_refl eq_refl)).
    discriminate.
  - apply (proj2 (photo_post_directive sound_config
                    (sample_photo_post (Some "newsch") (Some "my cart"))
                    {| file_id := "small" |} [ {| file_id := "large" |} ]
                    eq_refl ltac:(discriminate) eq_refl eq_refl)).
    reflexivity.
Defined.

Lemma other_post_directive_witness :
  outcome_of (handle_channel_post sound_config
                (sample_other_post (Some "see old.com")))
  = Some (Relayed
            (copy_message "-100123" "-100777" 43 (Some "see new.com")))
  /\ outcome_of (handle_channel_post sound_config (sample_other_post None))
     = Some (Relayed (copy_message "-100123" "-100777" 43 None))
  /\ outcome_of (handle_channel_post sound_config
                   (sample_other_post (Some "nothing to do")))
     = Some (Relayed (copy_message "-100123" "-100777" 43 None)).
Proof.
  split; [|split].
  - apply (proj1 (other_post_directive sound_config
                    (sample_other_post (Some "see old.com"))
                    eq_refl ltac:(discriminate) eq_refl
                    eq_refl eq_refl eq_refl eq_refl eq_refl));
      discriminate.
  - apply (proj2 (other_post_directive sound_config (sample_other_post None)
                    eq_refl ltac:(discriminate) eq_refl
                    eq_refl eq_refl eq_refl eq_refl eq_refl)).
    left; reflexivity.
  - apply (proj2 (other_post_directive sound_config
                    (sample_other_post (Some "nothing to do"))
                    eq_refl ltac:(discriminate) eq_refl
                    eq_refl eq_refl eq_refl eq_refl eq_refl)).
    right; reflexivity.
Defined.

(** A fault of the engine does not stop the decision: the post is copied
    as it is, after the fault was logged. *)
Example fault_still_relayed :
  handle_channel_post (sample_config true "-100777")
    (sample_photo_post (Some "newsch") (Some "my old.com tram"))
  = [Log ERROR (ErrorApplyingReplacements (re_error "bad escape"));
     Api (copy_message "-100123" "-100777" 42 None);
     Log INFO (Forwarded "newsch" "-100777")].
Proof. reflexivity. Qed.

(** ** More on the forwarding decider *)

Section Relay.

Variable cfg : BotConfig.
Variable post : Post.

Lemma api_calls_app (l1 l2 : list event) :
  api_calls (l1 ++ l2) = (api_calls l1 ++ api_calls l2)%list.
Proof.
  induction l1 as [|[lvl msg|c] l1 IH]; simpl; [reflexivity | exact IH |].
  rewrite IH. reflexivity.
Qed.

(** The engine sends nothing. *)
Lemma apply_replacements_no_call (t : string) :
  api_calls (snd (apply_replacements cfg t)) = [].
Proof.
  destruct (apply_replacements_log cfg t) as [H|[e H]]; rewrite H;
    reflexivity.
Qed.

(** A forwarded post leaves the records of the engine and then exactly one
    request, addressed to the target channel. *)
Lemma forward_channel_message_call :
  exists logs c,
    forward_channel_message cfg post = (logs ++ [Api c])%list
    /\ api_calls logs = []
    /\ payload_get "chat_id" (snd (request c))
       = Some (VStr (target_channel cfg)).
Proof.
  unfold forward_channel_message.
  pose proof (apply_replacements_no_call (get_str (text post))) as Lt.
  pose proof (apply_replacements_no_call (get_str (caption post))) as Lc.
  destruct (apply_replacements cfg (get_str (text post))) as [nt lt].
  destruct (apply_replacements cfg (get_str (caption post))) as [nc lc].
  cbn [snd] in Lt, Lc.
  eexists (lt ++ lc)%list, _. rewrite <- app_assoc.
  split; [reflexivity|].
  split; [rewrite api_calls_app, Lt, Lc; reflexivity|].
  destruct (photo post), (video post), (document post), (animation post);
    repeat match goal with
           | |- context [if ?b then _ else _] => destruct b
           end; reflexivity.
Qed.

(** On a trace with more than one event the outcome is read off its
    requests. *)
Lemma outcome_of_long (a b : event) (tr : list event) :
  outcome_of (a :: b :: tr)
  = match api_calls (a :: b :: tr) with
    | [c] => Some (Relayed c)
    | _ => None
    end.
Proof.
  destruct a as [[] []|]; reflexivity.
Qed.

Lemma outcome_of_forwarded (logs : list event) (c : ApiCall) (m : message) :
  api_calls logs = [] ->
  outcome_of ((logs ++ [Api c]) ++ [Log INFO m])%list = Some (Relayed c)
  /\ api_calls ((logs ++ [Api c]) ++ [Log INFO m])%list = [c].
Proof.
  intros H.
  assert (Hc : api_calls ((logs ++ [Api c]) ++ [Log INFO m])%list = [c]).
  { rewrite !api_calls_app, H. reflexivity. }
  split; [|exact Hc].
  destruct logs as [|a logs]; [reflexivity|].
  cbn [app] in Hc |- *. destruct (logs ++ [Api c])%list as [|b l] eqn:E.
  - destruct logs; discriminate.
  - cbn [app] in Hc |- *. rewrite outcome_of_long, Hc. reflexivity.
Qed.

End Relay.

(** Closes the goal for one media branch: the caption was changed
    ([Hcap] says so, or says the contrary). *)
Ltac media_branch :=
  match goal with
  | |- context [String.eqb ?a ?b] => destruct (String.eqb_spec a b)
  end; try contradiction; try congruence; reflexivity.

(** X1: a video post (without photo) that passes the preconditions is sent
    again as a video with the new caption when the engine changed the
    caption, and copied by message id when it did not. *)
Theorem video_post_directive (cfg : BotConfig) (post : Post) (v : Media) :
  forwarding_enabled cfg = true ->
  target_channel cfg <> EmptyString ->
  is_source_channel (source_channels cfg) (str_int (id (chat post)))
    (get_str (username (chat post))) = true ->
  photo post = [] -> video post = Some v ->
  (apply cfg (get_str (caption post)) <> get_str (caption post) ->
   outcome_of (handle_channel_post cfg post)
   = Some (Relayed
             (send_video (target_channel cfg) (file_id v)
                (Some (apply cfg (get_str (caption post)))))))
  /\ (apply cfg (get_str (caption post)) = get_str (caption post) ->
      outcome_of (handle_channel_post cfg post)
      = Some (Relayed
                (copy_message (str_int (id (chat post))) (target_channel cfg)
                   (message_id post) None))).
Proof.
  intros Hen Htg Hsrc Hph Hv.
  split; intros Hcap; forwarded cfg post Hen Htg Hsrc; rewrite Hph, Hv;
    media_branch.
Qed.

(** X2: a document post (without photo and video) is sent again as a
    document with the new caption when the caption changed, and copied
    otherwise. *)
Theorem document_post_directive (cfg : BotConfig) (post : Post) (d : Media) :
  forwarding_enabled cfg = true ->
  target_channel cfg <> EmptyString ->
  is_source_channel (source_channels cfg) (str_int (id (chat post)))
    (get_str (username (chat post))) = true ->
  photo post = [] -> video post = None -> document post = Some d ->
  (apply cfg (get_str (caption post)) <> get_str (caption post) ->
   outcome_of (handle_channel_post cfg post)
   = Some (Relayed
             (send_document (target_channel cfg) (file_id d)
                (Some (apply cfg (get_str (caption post)))))))
  /\ (apply cfg (get_str (caption post)) = get_str (caption post) ->
      outcome_of (handle_channel_post cfg post)
      = Some (Relayed
                (copy_message (str_int (id (chat post))) (target_channel cfg)
                   (message_id post) None))).
Proof.
  intros Hen Htg Hsrc Hph Hv Hd.
  split; intros Hcap; forwarded cfg post Hen Htg Hsrc; rewrite Hph, Hv, Hd;
    media_branch.
Qed.

(** X3: an animation (without photo, video and document) whose caption
    changed is sent with the document request, not with a request of its
    own; it is copied when the caption did not change. *)
Theorem animation_post_directive (cfg : BotConfig) (post : Post) (a : Media) :
  forwarding_enabled cfg = true ->
  target_channel cfg <> EmptyString ->
  is_source_channel (source_channels cfg) (str_int (id (chat post)))
    (get_str (username (chat post))) = true ->
  photo post = [] -> video post = None -> document post = None ->
  animation post = Some a ->
  (apply cfg (get_str (caption post)) <> get_str (caption post) ->
   outcome_of (handle_channel_post cfg post)
   = Some (Relayed
             (send_document (target_channel cfg) (file_id a)
                (Some (apply cfg (get_str (caption post)))))))
  /\ (apply cfg (get_str (caption post)) = get_str (caption post) ->
      outcome_of (handle_channel_post cfg post)
      = Some (Relayed
                (copy_message (str_int (id (chat post))) (target_channel cfg)
                   (message_id post) None))).
Proof.
  intros Hen Htg Hsrc Hph Hv Hd Ha.
  split; intros Hcap; forwarded cfg post Hen Htg Hsrc;
    rewrite Hph, Hv, Hd, Ha; media_branch.
Qed.

(** X4: a post with text and no media is sent as a new message with the
    rewritten text when the engine changed the text, and copied when it
    did not; its caption plays no part. *)
Theorem text_post_directive (cfg : BotConfig) (post : Post) :
  forwarding_enabled cfg = true ->
  target_channel cfg <> EmptyString ->
  is_source_channel (source_channels cfg) (str_int (id (chat post)))
    (get_str (username (chat post))) = true ->
  photo post = [] -> video post = None -> document post = None ->
  animation post = None -> get_str (text post) <> EmptyString ->
  (apply cfg (get_str (text post)) <> get_str (text post) ->
   outcome_of (handle_channel_post cfg post)
   = Some (Relayed
             (send_message (target_channel cfg)
                (apply cfg (get_str (text post))))))
  /\ (apply cfg (get_str (text post)) = get_str (text post) ->
      outcome_of (handle_channel_post cfg post)
      = Some (Relayed
                (copy_message (str_int (id (chat post))) (target_channel cfg)
                   (message_id post) None))).
Proof.
  intros Hen Htg Hsrc Hph Hv Hd Ha Htx.
  split; intros Hmod; forwarded cfg post Hen Htg Hsrc;
    rewrite Hph, Hv, Hd, Ha, (is_empty_false _ Htx); cbn [negb];
    match goal with
    | |- context [String.eqb ?a (get_str (text post))] =>
        destruct (String.eqb_spec a (get_str (text post)))
    end; try contradiction; try congruence; reflexivity.
Qed.

Lemma video_post_directive_witness :
  outcome_of
    (handle_channel_post sound_config
       (sample_post [] (Some {| file_id := "vid" |}) None None None
          (Some "a car at old.com")))
  = Some (Relayed (send_video "-100777" "vid" (Some "a bus at new.com"))).
Proof.
  apply (proj1 (video_post_directive sound_config
                  (sample_post [] (Some {| file_id := "vid" |}) None None None
                     (Some "a car at old.com"))
                  {| file_id := "vid" |}
                  eq_refl ltac:(discriminate) eq_refl eq_refl eq_refl)).
  discriminate.
Defined.

Lemma document_post_directive_witness :
  outcome_of
    (handle_channel_post sound_config
       (sample_post [] None (Some {| file_id := "doc" |}) None None
          (Some "a car")))
  = Some (Relayed (send_document "-100777" "doc" (Some "a bus"))).
Proof.
  apply (proj1 (document_post_directive sound_config
                  (sample_post [] None (Some {| file_id := "doc" |}) None None
                     (Some "a car"))
                  {| file_id := "doc" |}
                  eq_refl ltac:(discriminate) eq_refl eq_refl eq_refl
                  eq_refl)).
  discriminate.
Defined.

Lemma animation_post_directive_witness :
  outcome_of
    (handle_channel_post sound_config
       (sample_post [] None None (Some {| file_id := "gif" |}) None
          (Some "a car")))
  = Some (Relayed (send_document "-100777" "gif" (Some "a bus"))).
Proof.
  apply (proj1 (animation_post_directive sound_config
                  (sample_post [] None None (Some {| file_id := "gif" |}) None
                     (Some "a car"))
                  {| file_id := "gif" |}
                  eq_refl ltac:(discriminate) eq_refl eq_refl eq_refl
                  eq_refl eq_refl)).
  discriminate.
Defined.

Lemma text_post_directive_witness :
  outcome_of
    (handle_channel_post sound_config
       (sample_post [] None None None (Some "my Car") (Some "a car")))
  = Some (Relayed (send_message "-100777" "my bus"))
  /\ outcome_of
       (handle_channel_post sound_config
          (sample_post [] None None None (Some "my cart") (Some "a car")))
     = Some (Relayed (copy_message "-100123" "-100777" 44 None)).
Proof.
  split.
  - apply (proj1 (text_post_directive sound_config
                    (sample_post [] None None None (Some "my Car")
                       (Some "a car"))
                    eq_refl ltac:(discriminate) eq_refl eq_refl eq_refl
                    eq_refl eq_refl ltac:(discriminate))).
    discriminate.
  - apply (proj2 (text_post_directive sound_config
                    (sample_post [] None None None (Some "my cart")
                       (Some "a car"))
                    eq_refl ltac:(discriminate) eq_refl eq_refl eq_refl
                    eq_refl eq_refl ltac:(discriminate))).
    reflexivity.
Defined.

(** X5: whatever the configuration and the post, at most one request is
    sent for a channel post, and its [chat_id] is the configured target
    channel. *)
Theorem requests_go_to_target (cfg : BotConfig) (post : Post) :
  List.length (api_calls (handle_channel_post cfg post)) <= 1
  /\ forall c,
      In c (api_calls (handle_channel_post cfg post)) ->
      payload_get "chat_id" (snd (request c))
      = Some (VStr (target_channel cfg)).
Proof.
  unfold handle_channel_post.
  destruct (forwarding_enabled cfg); cbn [negb];
    [|split; [simpl; lia | intros c []]].
  destruct (is_empty (target_channel cfg));
    [split; [simpl; lia | intros c []]|].
  destruct (is_source_channel _ _ _); cbn [negb];
    [|split; [simpl; lia | intros c []]].
  destruct (forward_channel_message_call cfg post) as [logs [c [E [Hl Hd]]]].
  rewrite E.
  destruct (outcome_of_forwarded logs c
              (Forwarded
                 (str_or (get_str (username (chat post)))
                    (str_int (id (chat post)))) (target_channel cfg)) Hl)
    as [_ Hc].
  rewrite Hc. split; [simpl; lia|].
  intros c' [<-|[]]. exact Hd.
Qed.

(** X6: every channel post is decided: it is relayed by one request
    exactly when forwarding is on, a target is set and the channel is a
    source, and suppressed otherwise. *)
Theorem relayed_iff_preconditions (cfg : BotConfig) (post : Post) :
  (exists o, outcome_of (handle_channel_post cfg post) = Some o)
  /\ ((exists c, outcome_of (handle_channel_post cfg post) = Some (Relayed c))
      <-> forwarding_enabled cfg = true
          /\ target_channel cfg <> EmptyString
          /\ is_source_channel (source_channels cfg)
               (str_int (id (chat post))) (get_str (username (chat post)))
             = true).
Proof.
  unfold handle_channel_post.
  destruct (forwarding_enabled cfg); cbn [negb].
  2: { split; [eexists; reflexivity|].
       split; [intros [c H]; discriminate | intros [H _]; discriminate]. }
  destruct (target_channel cfg) as [|a t] eqn:Et; cbn [is_empty].
  { split; [eexists; reflexivity|].
    split; [intros [c H]; discriminate | intros [_ [H _]]; congruence]. }
  destruct (is_source_channel _ _ _); cbn [negb].
  2: { split; [eexists; reflexivity|].
       split; [intros [c H]; discriminate | intros [_ [_ H]]; discriminate]. }
  destruct (forward_channel_message_call cfg post) as [logs [c [E [Hl _]]]].
  rewrite E.
  destruct (outcome_of_forwarded logs c
              (Forwarded
                 (str_or (get_str (username (chat post)))
                    (str_int (id (chat post)))) (String a t)) Hl)
    as [Ho _].
  rewrite Ho. split; [eexists; reflexivity|].
  split; [intros _; repeat split; discriminate | intros _; eexists; reflexivity].
Qed.

(** ** The engine and the rule commands *)

(** With a malformed word value the engine returns every text as it is. *)
Lemma apply_malformed (cfg : BotConfig) (old new : string) (e : exn) :
  In (old, new) (words (replacements cfg)) ->
  PyRe.parse_template new = Raise e ->
  forall t, apply cfg t = t.
Proof.
  intros Hin Hp t. unfold apply, apply_replacements.
  destruct (is_empty t); [reflexivity|].
  destruct (run_stages_malformed (replacements cfg) old new e Hin Hp t)
    as [e' He'].
  rewrite He'. reflexivity.
Qed.

(** X7: one word rule whose value is not a well-formed replacement
    template switches all rewriting off: every post that passes the
    preconditions is copied as it is, whatever its media, text and caption
    and whatever the other rules say. *)
Theorem malformed_word_value_forces_copy
        (cfg : BotConfig) (post : Post) (old new : string) (e : exn) :
  forwarding_enabled cfg = true ->
  target_channel cfg <> EmptyString ->
  is_source_channel (source_channels cfg) (str_int (id (chat post)))
    (get_str (username (chat post))) = true ->
  In (old, new) (words (replacements cfg)) ->
  PyRe.parse_template new = Raise e ->
  outcome_of (handle_channel_post cfg post)
  = Some (Relayed
            (copy_message (str_int (id (chat post))) (target_channel cfg)
               (message_id post) None)).
Proof.
  intros Hen Htg Hsrc Hin Hp.
  pose proof (apply_malformed cfg old new e Hin Hp (get_str (text post)))
    as Ht.
  pose proof (apply_malformed cfg old new e Hin Hp (get_str (caption post)))
    as Hc.
  forwarded cfg post Hen Htg Hsrc; subst; rewrite !String.eqb_refl;
    cbn [negb andb];
    destruct (photo post), (video post), (document post), (animation post);
    try reflexivity;
    destruct (is_empty (get_str (text post))),
             (is_empty (get_str (caption post))); reflexivity.
Qed.

Lemma malformed_word_value_forces_copy_witness :
  outcome_of
    (handle_channel_post (sample_config true "-100777")
       (sample_post [] None None None (Some "my car at old.com") None))
  = Some (Relayed (copy_message "-100123" "-100777" 44 None)).
Proof.
  apply (malformed_word_value_forces_copy (sample_config true "-100777")
           (sample_post [] None None None (Some "my car at old.com") None)
           "tram" "C:\dir" (re_error "bad escape")
           eq_refl ltac:(discriminate) eq_refl
           (or_intror (or_introl eq_refl)) eq_refl).
Defined.

(** The engine is the identity when there is no rule. *)
Lemma apply_no_rules (cfg : BotConfig) (t : string) :
  links (replacements cfg) = [] ->
  words (replacements cfg) = [] ->
  sentences (replacements cfg) = [] ->
  apply cfg t = t.
Proof.
  intros Hl Hw Hs. apply apply_absent. unfold key_occurs.
  rewrite Hl, Hw, Hs. reflexivity.
Qed.

Lemma length_0_nil {A : Type} (l : list A) : List.length l = 0 -> l = [].
Proof. destruct l; [reflexivity | discriminate]. Qed.

(** X8: after [/clear_replacements all] (in any letter case, with
    anything after it) the engine returns every text as it is. *)
Theorem clear_all_makes_apply_identity
        (cfg : BotConfig) (text cmd ty : string) (rest : list string) :
  Py.split_None text = cmd :: ty :: rest ->
  lower ty = "all" ->
  forall t, apply (cmd_clear_replacements cfg text) t = t.
Proof.
  intros Hs Hty t. unfold cmd_clear_replacements. rewrite Hs, Hty.
  cbn [String.eqb Ascii.eqb Bool.eqb].
  destruct (Nat.eqb_spec
              (List.length (links (replacements cfg))
               + List.length (words (replacements cfg))
               + List.length (sentences (replacements cfg))) 0) as [H0|_].
  - apply apply_no_rules; apply length_0_nil; lia.
  - apply apply_no_rules; reflexivity.
Qed.

Lemma clear_all_makes_apply_identity_witness :
  apply (cmd_clear_replacements sound_config "/clear_replacements ALL now")
    "my car at old.com" = "my car at old.com".
Proof.
  apply (clear_all_makes_apply_identity sound_config
           "/clear_replacements ALL now" "/clear_replacements" "ALL" ["now"]
           eq_refl eq_refl).
Defined.

(** ** More on the channel matcher and the channel commands *)

Section Channels.

Lemma lower_char_idem (c : ascii) : lower_char (lower_char c) = lower_char c.
Proof. destruct c as [[] [] [] [] [] [] [] []]; reflexivity. Qed.

Lemma lower_idem (s : string) : lower (lower s) = lower s.
Proof.
  induction s as [|c s IH]; simpl; [reflexivity|].
  rewrite lower_char_idem, IH. reflexivity.
Qed.

Lemma lstrip_idem (s : string) : lstrip "@" (lstrip "@" s) = lstrip "@" s.
Proof.
  induction s as [|c s IH]; [reflexivity|].
  cbn [lstrip]. destruct (Ascii.eqb c "@") eqn:E; [exact IH|].
  cbn [lstrip]. rewrite E. reflexivity.
Qed.

Lemma lstrip_drop_sigil (s : string) :
  lstrip "@" (drop_sigil s) = lstrip "@" s.
Proof.
  destruct s as [|c s]; [reflexivity|].
  destruct c as [[] [] [] [] [] [] [] []]; reflexivity.
Qed.

(** [cmd_add_channel] in terms of [drop_sigil] and [with_sources]. *)
Lemma cmd_add_channel_eq (cfg : BotConfig) (text : string) :
  cmd_add_channel cfg text
  = match split_None_1 text with
    | [_; arg] =>
        if negb (mem_str (drop_sigil (strip arg))
                   (map (lstrip "@") (source_channels cfg)))
        then with_sources cfg
               (source_channels cfg ++ [drop_sigil (strip arg)])
        else cfg
    | _ => cfg
    end.
Proof. reflexivity. Qed.

Lemma In_remove_str (x y : string) (l : list string) :
  In x (Py.remove_str y l) -> In x l.
Proof.
  induction l as [|z l IH]; simpl; [auto|].
  destruct (String.eqb z y); simpl; intuition.
Qed.

Lemma In_remove_str_other (x y : string) (l : list string) :
  In x l -> x <> y -> In x (Py.remove_str y l).
Proof.
  induction l as [|z l IH]; simpl; [auto|].
  intros Hin Hne. destruct (String.eqb_spec z y) as [Hzy|Hzy].
  - destruct Hin as [Hzx|Hin]; [congruence | exact Hin].
  - destruct Hin as [Hzx|Hin]; [left; exact Hzx | right; auto].
Qed.

Lemma find_channel_Some (c : string) (l : list string) (found : string) :
  find_channel c l = Some found ->
  In found l /\ lower (lstrip "@" found) = lower c.
Proof.
  induction l as [|x l IH]; simpl; [discriminate|].
  destruct (String.eqb_spec (lower (lstrip "@" x)) (lower c)).
  - intros H; inversion H; subst. auto.
  - intros H. destruct (IH H). auto.
Qed.

End Channels.

(** X9: the order of the configured sources does not matter to the
    matcher. *)
Theorem matcher_ignores_order (l l' : list string) (cid uname : string) :
  Permutation l l' ->
  is_source_channel l cid uname = is_source_channel l' cid uname.
Proof.
  intros P. apply Bool.eq_true_iff_eq. rewrite !is_source_channel_iff.
  split; intros [s [Hin H]]; exists s; (split; [|exact H]).
  - exact (Permutation_in s P Hin).
  - exact (Permutation_in s (Permutation_sym P) Hin).
Qed.

Lemma matcher_ignores_order_witness :
  is_source_channel ["@NewsCh"; "-100123"] "-100123" ""
  = is_source_channel ["-100123"; "@NewsCh"] "-100123" "".
Proof.
  apply (matcher_ignores_order ["@NewsCh"; "-100123"] ["-100123"; "@NewsCh"]
           "-100123" "").
  apply perm_swap.
Defined.

(** X10: the matcher does not see the letter case of the post's handle
    nor a further sigil in front of a configured entry. *)
Theorem matcher_ignores_case_and_sigil
        (l : list string) (cid uname : string) :
  is_source_channel l cid (lower uname) = is_source_channel l cid uname
  /\ is_source_channel (map (String "@") l) cid uname
     = is_source_channel l cid uname.
Proof.
  split.
  - induction l as [|x l IH]; [reflexivity|].
    cbn [is_source_channel]. unfold source_matches.
    rewrite lower_idem, IH. reflexivity.
  - induction l as [|x l IH]; [reflexivity|].
    cbn [map is_source_channel]. rewrite IH. reflexivity.
Qed.

(** X11: after the add-channel command a channel is a source when its id
    is the argument without its sigils, or its handle is, up to letter
    case. *)
Theorem added_channel_is_source
        (cfg : BotConfig) (text cmd arg cid uname : string) :
  split_None_1 text = [cmd; arg] ->
  cid = lstrip "@" (strip arg)
  \/ lower uname = lower (lstrip "@" (strip arg)) ->
  is_source_channel (source_channels (cmd_add_channel cfg text)) cid uname
  = true.
Proof.
  intros Hs Hm. rewrite cmd_add_channel_eq, Hs.
  rewrite <- (lstrip_drop_sigil (strip arg)) in Hm.
  apply is_source_channel_iff.
  destruct (mem_str _ _) eqn:E; cbn [negb].
  - apply mem_str_In, in_map_iff in E. destruct E as [x [Hx Hin]].
    exists x. split; [exact Hin|].
    rewrite <- Hx, lstrip_idem in Hm. exact Hm.
  - exists (drop_sigil (strip arg)). split; [|exact Hm].
    cbn [source_channels with_sources]. apply in_or_app. right. left.
    reflexivity.
Qed.

Lemma added_channel_is_source_witness :
  is_source_channel
    (source_channels (cmd_add_channel sound_config "/add_channel  @Sports "))
    "-100555" "SPORTS" = true.
Proof.
  apply (added_channel_is_source sound_config "/add_channel  @Sports "
           "/add_channel" "@Sports " "-100555" "SPORTS" eq_refl).
  right. reflexivity.
Defined.

(** X12: the add-channel command keeps the sources it finds, in their
    order, puts at most one entry after them, and leaves the target, the
    rules and the forwarding flag alone; a channel that was a source stays
    one. *)
Theorem add_channel_keeps_sources (cfg : BotConfig) (text : string) :
  (exists tail,
      source_channels (cmd_add_channel cfg text)
      = (source_channels cfg ++ tail)%list
      /\ List.length tail <= 1)
  /\ target_channel (cmd_add_channel cfg text) = target_channel cfg
  /\ replacements (cmd_add_channel cfg text) = replacements cfg
  /\ forwarding_enabled (cmd_add_channel cfg text) = forwarding_enabled cfg
  /\ forall cid uname,
      is_source_channel (source_channels cfg) cid uname = true ->
      is_source_channel (source_channels (cmd_add_channel cfg text))
        cid uname = true.
Proof.
  rewrite cmd_add_channel_eq.
  assert (Hsame :
            (exists tail, source_channels cfg
                          = (source_channels cfg ++ tail)%list
                          /\ List.length tail <= 1)
            /\ target_channel cfg = target_channel cfg
            /\ replacements cfg = replacements cfg
            /\ forwarding_enabled cfg = forwarding_enabled cfg
            /\ forall cid uname,
                is_source_channel (source_channels cfg) cid uname = true ->
                is_source_channel (source_channels cfg) cid uname = true).
  { split; [exists []; rewrite app_nil_r; auto | auto]. }
  destruct (split_None_1 text) as [|c [|arg [|x r]]]; try exact Hsame.
  destruct (mem_str _ _); cbn [negb]; [exact Hsame|].
  split; [eexists; split; [reflexivity | simpl; lia]|].
  repeat split.
  intros cid uname H. apply is_source_channel_iff.
  apply is_source_channel_iff in H. destruct H as [s [Hin H]].
  exists s. split; [|exact H].
  cbn [source_channels with_sources]. apply in_or_app. left. exact Hin.
Qed.

(** X13: giving the same add-channel command twice adds the channel once,
    as long as the argument has no more than one sigil. *)
Theorem add_channel_twice (cfg : BotConfig) (text cmd arg : string) :
  split_None_1 text = [cmd; arg] ->
  lstrip "@" (drop_sigil (strip arg)) = drop_sigil (strip arg) ->
  cmd_add_channel (cmd_add_channel cfg text) text = cmd_add_channel cfg text.
Proof.
  intros Hs Hn. rewrite (cmd_add_channel_eq cfg), Hs.
  destruct (mem_str _ (map (lstrip "@") (source_channels cfg))) eqn:E;
    cbn [negb].
  - rewrite cmd_add_channel_eq, Hs, E. reflexivity.
  - rewrite cmd_add_channel_eq, Hs. cbn [source_channels with_sources].
    replace (mem_str (drop_sigil (strip arg))
               (map (lstrip "@")
                  (source_channels cfg ++ [drop_sigil (strip arg)])))
      with true; [reflexivity|].
    symmetry. apply mem_str_In, in_map_iff.
    exists (drop_sigil (strip arg)). split; [exact Hn|].
    apply in_or_app. right. left. reflexivity.
Qed.

Lemma add_channel_twice_witness :
  cmd_add_channel (cmd_add_channel sound_config "/add_channel @Sports")
    "/add_channel @Sports"
  = cmd_add_channel sound_config "/add_channel @Sports".
Proof.
  apply (add_channel_twice sound_config "/add_channel @Sports"
           "/add_channel" "@Sports" eq_refl eq_refl).
Defined.

(** With two sigils the entry is stored with one and added again each
    time. *)
Example add_channel_two_sigils :
  source_channels
    (cmd_add_channel (cmd_add_channel sound_config "/add_channel @@Sports")
       "/add_channel @@Sports")
  = ["@NewsCh"; "@Sports"; "@Sports"].
Proof. reflexivity. Qed.

(** X14: the remove-channel command never removes an empty entry (the
    entry it finds is tested for truth before it is removed), so with such
    an entry in the list the posts of channels without a handle keep
    matching after any remove-channel command. *)
Theorem remove_channel_keeps_empty_entry
        (cfg : BotConfig) (text : string) (post : Post) :
  In EmptyString (source_channels cfg) ->
  username (chat post) = None ->
  In EmptyString (source_channels (cmd_remove_channel cfg text))
  /\ is_source_channel (source_channels (cmd_remove_channel cfg text))
       (str_int (id (chat post))) (get_str (username (chat post))) = true.
Proof.
  intros Hin Hu.
  assert (H : In EmptyString (source_channels (cmd_remove_channel cfg text))).
  { unfold cmd_remove_channel.
    destruct (split_None_1 text) as [|c [|arg [|x r]]]; try exact Hin.
    destruct (find_channel _ _) as [found|]; [|exact Hin].
    destruct found as [|a f]; [exact Hin|].
    cbn [is_empty source_channels with_sources].
    apply In_remove_str_other; [exact Hin | discriminate]. }
  split; [exact H|].
  apply is_source_channel_iff. exists EmptyString.
  split; [exact H|]. right. rewrite Hu. reflexivity.
Qed.

Lemma remove_channel_keeps_empty_entry_witness :
  source_channels
    (cmd_remove_channel (cmd_add_channel sound_config "/add_channel @")
       "/remove_channel @")
  = ["@NewsCh"; ""]
  /\ is_source_channel
       (source_channels
          (cmd_remove_channel (cmd_add_channel sound_config "/add_channel @")
             "/remove_channel @"))
       "-100999" "" = true.
Proof.
  split; [reflexivity|].
  apply (proj2 (remove_channel_keeps_empty_entry
                  (cmd_add_channel sound_config "/add_channel @")
                  "/remove_channel @"
                  {| chat := {| id := (-100999)%Z; username := None |};
                     message_id := 1%Z; text := None; caption := None;
                     photo := []; video := None; document := None;
                     animation := None |}
                  (or_intror (or_introl eq_refl)) eq_refl)).
Defined.

(** X15: the remove-channel command takes at most one entry out of the
    source list and touches nothing else: no channel becomes a source by
    it, and the target, the rules and the forwarding flag stay. *)
Theorem remove_channel_only_shrinks (cfg : BotConfig) (text : string) :
  (forall e, In e (source_channels (cmd_remove_channel cfg text)) ->
             In e (source_channels cfg))
  /\ List.length (source_channels cfg)
     <= S (List.length (source_channels (cmd_remove_channel cfg text)))
  /\ (forall cid uname,
         is_source_channel (source_channels (cmd_remove_channel cfg text))
           cid uname = true ->
         is_source_channel (source_channels cfg) cid uname = true)
  /\ target_channel (cmd_remove_channel cfg text) = target_channel cfg
  /\ replacements (cmd_remove_channel cfg text) = replacements cfg
  /\ forwarding_enabled (cmd_remove_channel cfg text)
     = forwarding_enabled cfg.
Proof.
  assert (Hlen : forall x l,
             List.length l <= S (List.length (Py.remove_str x l))).
  { intros x l. induction l as [|y l IH]; simpl; [lia|].
    destruct (String.eqb y x); simpl; lia. }
  assert (Hsub : forall e, In e (source_channels (cmd_remove_channel cfg text))
                           -> In e (source_channels cfg)).
  { unfold cmd_remove_channel.
    destruct (split_None_1 text) as [|c [|arg [|x r]]]; auto.
    destruct (find_channel _ _) as [found|]; auto.
    destruct (is_empty found); auto.
    intros e. apply In_remove_str. }
  split; [exact Hsub|].
  split.
  { unfold cmd_remove_channel.
    destruct (split_None_1 text) as [|c [|arg [|x r]]]; try lia.
    destruct (find_channel _ _) as [found|]; try lia.
    destruct (is_empty found); [lia | apply Hlen]. }
  split.
  { intros cid uname H. apply is_source_channel_iff.
    apply is_source_channel_iff in H. destruct H as [s [Hin H]].
    exists s. split; [apply Hsub, Hin | exact H]. }
  unfold cmd_remove_channel.
  destruct (split_None_1 text) as [|c [|arg [|x r]]]; auto.
  destruct (find_channel _ _) as [found|]; auto.
  destruct (is_empty found); auto.
Qed.

(** X16: adding a channel that is new (no entry equals it up to sigils and
    letter case) and removing it again, in any letter case, gives back the
    source list as it was. *)
Theorem add_then_remove_channel
        (cfg : BotConfig) (t1 c1 a1 t2 c2 a2 : string) :
  split_None_1 t1 = [c1; a1] ->
  split_None_1 t2 = [c2; a2] ->
  drop_sigil (strip a1) <> EmptyString ->
  lstrip "@" (drop_sigil (strip a1)) = drop_sigil (strip a1) ->
  lower (drop_sigil (strip a2)) = lower (drop_sigil (strip a1)) ->
  (forall e, In e (source_channels cfg) ->
             lower (lstrip "@" e) <> lower (drop_sigil (strip a1))) ->
  source_channels (cmd_remove_channel (cmd_add_channel cfg t1) t2)
  = source_channels cfg.
Proof.
  intros H1 H2 Hne Hn Hlow Hfresh.
  set (ch := drop_sigil (strip a1)) in *.
  assert (Hadd : cmd_add_channel cfg t1
                 = with_sources cfg (source_channels cfg ++ [ch])).
  { rewrite cmd_add_channel_eq, H1. fold ch.
    destruct (mem_str ch (map (lstrip "@") (source_channels cfg))) eqn:E;
      [|reflexivity].
    apply mem_str_In, in_map_iff in E. destruct E as [x [Hx Hin]].
    destruct (Hfresh x Hin). rewrite Hx. reflexivity. }
  rewrite Hadd. unfold cmd_remove_channel. rewrite H2.
  cbn [source_channels with_sources].
  assert (Hfind : forall l,
             (forall e, In e l -> lower (lstrip "@" e) <> lower ch) ->
             find_channel (drop_sigil (strip a2)) (l ++ [ch]) = Some ch
             /\ Py.remove_str ch (l ++ [ch]) = l).
  { induction l as [|x l IH]; intros Hl.
    - cbn. rewrite Hn, Hlow, !String.eqb_refl. auto.
    - cbn [app find_channel Py.remove_str]. rewrite Hlow.
      destruct (String.eqb_spec (lower (lstrip "@" x)) (lower ch)) as [E|_];
        [destruct (Hl x (or_introl eq_refl) E)|].
      destruct (String.eqb_spec x ch) as [E|_].
      + subst x. destruct (Hl ch (or_introl eq_refl)).
        rewrite Hn. reflexivity.
      + destruct (IH (fun e He => Hl e (or_intror He))) as [-> ->]. auto. }
  destruct (Hfind (source_channels cfg) Hfresh) as [-> Hrm].
  destruct ch as [|a r]; [congruence|].
  cbn [is_empty source_channels with_sources]. exact Hrm.
Qed.

Lemma add_then_remove_channel_witness :
  source_channels
    (cmd_remove_channel (cmd_add_channel sound_config "/add_channel @Sports")
       "/remove_channel sports")
  = ["@NewsCh"].
Proof.
  apply (add_then_remove_channel sound_config
           "/add_channel @Sports" "/add_channel" "@Sports"
           "/remove_channel sports" "/remove_channel" "sports"
           eq_refl eq_refl ltac:(discriminate) eq_refl eq_refl).
  intros e [<-|[]]. discriminate.
Defined.

(** ** The target and forwarding commands *)

(** X17: after the stop command every post is suppressed as disabled.
    The clear-target command always leaves the target empty, switches
    forwarding off when there was a target, and after it no post is
    relayed. *)
Theorem stop_and_clear_target_stop_relay (cfg : BotConfig) (post : Post) :
  handle_channel_post (cmd_stop_forwarding cfg) post
  = [Log DEBUG ForwardingDisabled]
  /\ target_channel (cmd_clear_target cfg) = EmptyString
  /\ (target_channel cfg <> EmptyString ->
      forwarding_enabled (cmd_clear_target cfg) = false)
  /\ api_calls (handle_channel_post (cmd_clear_target cfg) post) = [].
Proof.
  split; [reflexivity|].
  unfold cmd_clear_target, handle_channel_post.
  destruct (target_channel cfg) as [|a t] eqn:Et; cbn [is_empty].
  - split; [exact Et|]. split; [congruence|].
    rewrite Et. destruct (forwarding_enabled cfg); reflexivity.
  - cbn [forwarding_enabled with_target].
    destruct (forwarding_enabled cfg) eqn:Een; repeat split;
      cbn; rewrite ?Een; reflexivity.
Qed.

Lemma stop_and_clear_target_stop_relay_witness :
  forwarding_enabled (cmd_clear_target sound_config) = false.
Proof.
  apply (proj1 (proj2 (proj2 (stop_and_clear_target_stop_relay sound_config
                                (sample_other_post None))))).
  discriminate.
Defined.

(** X18: the start command switches forwarding on only with a target and
    at least one source, and changes nothing else; after it has switched
    forwarding on, a post from a source channel is relayed. *)
Theorem start_forwarding_guard (cfg : BotConfig) :
  (forwarding_enabled (cmd_start_forwarding cfg) = true <->
   forwarding_enabled cfg = true
   \/ (target_channel cfg <> EmptyString /\ source_channels cfg <> []))
  /\ source_channels (cmd_start_forwarding cfg) = source_channels cfg
  /\ target_channel (cmd_start_forwarding cfg) = target_channel cfg
  /\ replacements (cmd_start_forwarding cfg) = replacements cfg
  /\ (target_channel cfg <> EmptyString ->
      source_channels cfg <> [] ->
      forall post,
        is_source_channel (source_channels cfg) (str_int (id (chat post)))
          (get_str (username (chat post))) = true ->
        exists c,
          api_calls (handle_channel_post (cmd_start_forwarding cfg) post)
          = [c]).
Proof.
  unfold cmd_start_forwarding.
  destruct (target_channel cfg) as [|a t] eqn:Et; cbn [is_empty].
  { repeat split; auto; try congruence.
    intros [H|[H _]]; [exact H | congruence]. }
  destruct (source_channels cfg) as [|s l] eqn:Es.
  { repeat split; auto; try congruence.
    intros [H|[_ H]]; [exact H | congruence]. }
  repeat split; auto.
  - intros _. right. split; discriminate.
  - intros _ _ post Hsrc.
    set (cfg' := with_enabled cfg true).
    assert (Hen : forwarding_enabled cfg' = true) by reflexivity.
    assert (Htg : target_channel cfg' <> EmptyString).
    { cbn. rewrite Et. discriminate. }
    assert (Hs : is_source_channel (source_channels cfg')
                   (str_int (id (chat post)))
                   (get_str (username (chat post))) = true).
    { cbn. rewrite Es. exact Hsrc. }
    rewrite (handle_channel_post_forwards cfg' post Hen Htg Hs).
    destruct (forward_channel_message_call cfg' post) as [logs [c [E [Hl _]]]].
    rewrite E. exists c. apply outcome_of_forwarded. exact Hl.
Qed.

Lemma start_forwarding_guard_witness :
  exists c,
    api_calls
      (handle_channel_post
         (cmd_start_forwarding (sample_config false "-100777"))
         (sample_other_post None))
    = [c].
Proof.
  apply (proj2 (proj2 (proj2 (proj2
           (start_forwarding_guard (sample_config false "-100777")))))).
  - discriminate.
  - discriminate.
  - reflexivity.
Defined.

(** X19: the set-target command stores its argument, stripped and
    without one leading sigil, and changes nothing else: given the
    argument ["@"] while forwarding is on it leaves the target empty and
    forwarding on, and every post is then suppressed for the missing
    target. *)
Theorem set_target_can_unset
        (cfg : BotConfig) (text cmd arg : string) (post : Post) :
  split_None_1 text = [cmd; arg] ->
  target_channel (cmd_set_target cfg text) = drop_sigil (strip arg)
  /\ forwarding_enabled (cmd_set_target cfg text) = forwarding_enabled cfg
  /\ source_channels (cmd_set_target cfg text) = source_channels cfg
  /\ replacements (cmd_set_target cfg text) = replacements cfg
  /\ (drop_sigil (strip arg) = EmptyString ->
      forwarding_enabled cfg = true ->
      handle_channel_post (cmd_set_target cfg text) post
      = [Log WARNING TargetNotSet]).
Proof.
  intros Hs.
  assert (Ht : target_channel (cmd_set_target cfg text)
               = drop_sigil (strip arg)).
  { unfold cmd_set_target. rewrite Hs.
    destruct (String.eqb_spec (target_channel cfg) (drop_sigil (strip arg)));
      [assumption | reflexivity]. }
  assert (He : forwarding_enabled (cmd_set_target cfg text)
               = forwarding_enabled cfg).
  { unfold cmd_set_target. rewrite Hs.
    destruct (String.eqb _ _); reflexivity. }
  repeat split; try assumption;
    try (unfold cmd_set_target; rewrite Hs;
         destruct (String.eqb _ _); reflexivity).
  intros H0 Hen. unfold handle_channel_post.
  rewrite He, Hen, Ht, H0. reflexivity.
Qed.

Lemma set_target_can_unset_witness :
  target_channel (cmd_set_target sound_config "/set_target @") = EmptyString
  /\ forwarding_enabled (cmd_set_target sound_config "/set_target @") = true
  /\ handle_channel_post (cmd_set_target sound_config "/set_target @")
       (sample_other_post (Some "see old.com"))
     = [Log WARNING TargetNotSet].
Proof.
  destruct (set_target_can_unset sound_config "/set_target @" "/set_target"
              "@" (sample_other_post (Some "see old.com")) eq_refl)
    as [Ht [He [_ [_ Hp]]]].
  split; [exact Ht|]. split; [exact He|].
  apply Hp; reflexivity.
Defined.

(** ** The rule commands *)

Section Rules.

Lemma dict_mem_In (k : string) (d : Dict) :
  Py.dict_mem k d = true <-> In k (map fst d).
Proof.
  induction d as [|[k' v'] d IH]; simpl; [split; [discriminate | intros []]|].
  rewrite orb_true_iff, IH, String.eqb_eq. reflexivity.
Qed.

Lemma dict_set_absent (k v : string) (d : Dict) :
  Py.dict_mem k d = false -> Py.dict_set k v d = (d ++ [(k, v)])%list.
Proof.
  induction d as [|[k' v'] d IH]; simpl; [reflexivity|].
  intros H. apply orb_false_iff in H as [Hk Hd].
  rewrite Hk, (IH Hd). reflexivity.
Qed.

Lemma dict_set_keys_present (k v : string) (d : Dict) :
  Py.dict_mem k d = true -> map fst (Py.dict_set k v d) = map fst d.
Proof.
  induction d as [|[k' v'] d IH]; simpl; [discriminate|].
  destruct (String.eqb k' k); simpl; [reflexivity|].
  intros H. rewrite (IH H). reflexivity.
Qed.

Lemma dict_set_Forall (P : string * string -> Prop) (k v : string) (d : Dict) :
  (forall k', P (k', v)) -> Forall P d -> Forall P (Py.dict_set k v d).
Proof.
  intros Hp. induction 1 as [|[k' v'] d Hx Hd IH]; simpl.
  - constructor; [apply Hp | constructor].
  - destruct (String.eqb k' k); constructor; auto.
Qed.

Lemma dict_set_ok (k v : string) (d : Dict) :
  k <> EmptyString -> v <> EmptyString ->
  dict_ok d -> dict_ok (Py.dict_set k v d).
Proof.
  intros Hk Hv [Hf Hn]. destruct (Py.dict_mem k d) eqn:E.
  - split.
    + clear Hn E. induction Hf as [|[k' v'] d Hx Hd IH]; simpl.
      * constructor; [split; assumption | constructor].
      * destruct (String.eqb k' k); constructor; auto.
        destruct Hx as [Hx _]. split; assumption.
    + rewrite dict_set_keys_present by exact E. exact Hn.
  - rewrite dict_set_absent by exact E. split.
    + apply Forall_app. split; [exact Hf|].
      constructor; [split; assumption | constructor].
    + rewrite map_app. cbn [map fst].
      apply NoDup_incl_NoDup with (l := k :: map fst d).
      * constructor; [|exact Hn].
        intros Hin. apply dict_mem_In in Hin. congruence.
      * rewrite length_app. simpl. lia.
      * intros x Hx. apply in_or_app. simpl in *. intuition.
Qed.

Lemma dict_del_ok (k : string) (d : Dict) :
  dict_ok d -> dict_ok (Py.dict_del k d).
Proof.
  intros [Hf Hn]. induction d as [|[k' v'] d IH]; simpl; [split; assumption|].
  inversion Hf; subst. cbn [map fst] in Hn. inversion Hn; subst.
  destruct (String.eqb k' k); [split; assumption|].
  destruct (IH H2 H4) as [Hf' Hn']. split; [constructor; assumption|].
  cbn [map fst]. constructor; [|exact Hn'].
  intros Hin. apply H3. clear -Hin.
  induction d as [|[a b] d IH]; simpl in *; [auto|].
  destruct (String.eqb a k); simpl in *; intuition.
Qed.

Lemma is_empty_false_iff (s : string) :
  is_empty s = false <-> s <> EmptyString.
Proof. destruct s; simpl; split; congruence. Qed.

Lemma add_rule_ok (text : string) (d : Dict) :
  dict_ok d -> dict_ok (add_rule text d).
Proof.
  intros H. unfold add_rule.
  destruct (split_None_1 text) as [|c [|arg [|x r]]]; try exact H.
  destruct (contains "|" arg); cbn [negb]; [|exact H].
  destruct (Py.split_sep_1 "|" arg) as [o n].
  destruct (is_empty (strip o)) eqn:Eo; cbn [orb]; [exact H|].
  destruct (is_empty (strip n)) eqn:En; [exact H|].
  apply dict_set_ok; [apply is_empty_false_iff .. | exact H]; assumption.
Qed.

Lemma remove_rule_ok (text : string) (d : Dict) :
  dict_ok d -> dict_ok (remove_rule text d).
Proof.
  intros H. unfold remove_rule.
  destruct (split_None_1 text) as [|c [|arg [|x r]]]; try exact H.
  destruct (Py.dict_mem _ _); [apply dict_del_ok|]; exact H.
Qed.

Lemma dict_get_set (k v : string) (d : Dict) :
  Py.dict_get k (Py.dict_set k v d) = Some v
  /\ forall k', k' <> k ->
                Py.dict_get k' (Py.dict_set k v d) = Py.dict_get k' d.
Proof.
  induction d as [|[a b] d [IH1 IH2]]; simpl.
  - rewrite String.eqb_refl. split; [reflexivity|].
    intros k' Hne. apply String.eqb_neq in Hne.
    rewrite String.eqb_sym, Hne. reflexivity.
  - destruct (String.eqb_spec a k) as [->|Hak]; simpl.
    + rewrite String.eqb_refl. split; [reflexivity|].
      intros k' Hne. apply String.eqb_neq in Hne.
      rewrite String.eqb_sym, Hne. reflexivity.
    + apply String.eqb_neq in Hak. rewrite Hak. split; [exact IH1|].
      intros k' Hne. destruct (String.eqb a k'); [reflexivity|].
      apply IH2, Hne.
Qed.

Lemma dict_del_set_absent (k v : string) (d : Dict) :
  Py.dict_mem k d = false ->
  Py.dict_mem k (Py.dict_set k v d) = true
  /\ Py.dict_del k (Py.dict_set k v d) = d.
Proof.
  induction d as [|[a b] d IH]; simpl; intros H.
  - rewrite String.eqb_refl. auto.
  - apply orb_false_iff in H as [Ha Hd]. rewrite Ha. simpl. rewrite Ha.
    destruct (IH Hd) as [-> ->]. auto.
Qed.

End Rules.

(** X20: the commands that add, remove and clear rules keep the rules
    well formed: in no category is there an empty key, an empty value or
    a key twice, whatever the text of the command. *)
Theorem rule_commands_keep_rules_ok (cfg : BotConfig) (text : string) :
  rules_ok (replacements cfg) ->
  rules_ok (replacements (cmd_add_link cfg text))
  /\ rules_ok (replacements (cmd_add_word cfg text))
  /\ rules_ok (replacements (cmd_add_sentence cfg text))
  /\ rules_ok (replacements (cmd_remove_link cfg text))
  /\ rules_ok (replacements (cmd_remove_word cfg text))
  /\ rules_ok (replacements (cmd_remove_sentence cfg text))
  /\ rules_ok (replacements (cmd_clear_replacements cfg text)).
Proof.
  intros Hok. pose proof Hok as [Hl [Hw Hs]].
  assert (Hnil : dict_ok []) by (split; constructor).
  split; [|split; [|split; [|split; [|split; [|split]]]]].
  - split; [apply add_rule_ok, Hl | split; assumption].
  - split; [exact Hl | split; [apply add_rule_ok, Hw | exact Hs]].
  - split; [exact Hl | split; [exact Hw | apply add_rule_ok, Hs]].
  - split; [apply remove_rule_ok, Hl | split; assumption].
  - split; [exact Hl | split; [apply remove_rule_ok, Hw | exact Hs]].
  - split; [exact Hl | split; [exact Hw | apply remove_rule_ok, Hs]].
  - unfold cmd_clear_replacements.
    destruct (Py.split_None text) as [|c [|ty r]]; try exact Hok.
    cbv zeta.
    repeat match goal with
           | |- context [if ?b then _ else _] => destruct b
           end;
      first [ exact Hok
            | exact (conj Hnil (conj Hnil Hnil))
            | exact (conj Hnil (conj Hw Hs))
            | exact (conj Hl (conj Hnil Hs))
            | exact (conj Hl (conj Hw Hnil)) ].
Qed.

Lemma rule_commands_keep_rules_ok_witness :
  rules_ok (replacements (cmd_add_word sound_config "/add_word  tram | bus ")).
Proof.
  refine (proj1 (proj2 (rule_commands_keep_rules_ok sound_config
                          "/add_word  tram | bus " _))).
  repeat split; repeat constructor; simpl; try discriminate; intuition;
    discriminate.
Defined.

(** X21: after a well-formed add command ([old|new] with both sides
    non-empty once stripped) the category maps the stripped old text to
    the stripped new text; what the other keys map to is not touched. *)
Theorem added_rule_is_found
        (cfg : BotConfig) (text cmd arg o n : string) :
  split_None_1 text = [cmd; arg] ->
  contains "|" arg = true ->
  Py.split_sep_1 "|" arg = (o, n) ->
  strip o <> EmptyString ->
  strip n <> EmptyString ->
  (Py.dict_get (strip o) (links (replacements (cmd_add_link cfg text)))
   = Some (strip n)
   /\ Py.dict_get (strip o) (words (replacements (cmd_add_word cfg text)))
      = Some (strip n)
   /\ Py.dict_get (strip o)
        (sentences (replacements (cmd_add_sentence cfg text)))
      = Some (strip n))
  /\ forall k,
      k <> strip o ->
      Py.dict_get k (links (replacements (cmd_add_link cfg text)))
      = Py.dict_get k (links (replacements cfg))
      /\ Py.dict_get k (words (replacements (cmd_add_word cfg text)))
         = Py.dict_get k (words (replacements cfg))
      /\ Py.dict_get k (sentences (replacements (cmd_add_sentence cfg text)))
         = Py.dict_get k (sentences (replacements cfg)).
Proof.
  intros Hs Hc Hp Ho Hn.
  assert (Hadd : forall d, add_rule text d = Py.dict_set (strip o) (strip n) d).
  { intros d. unfold add_rule. rewrite Hs, Hc, Hp. cbn [negb].
    rewrite (proj2 (is_empty_false_iff _) Ho),
      (proj2 (is_empty_false_iff _) Hn). reflexivity. }
  cbn. rewrite !Hadd.
  split; [repeat split; apply dict_get_set|].
  intros k Hk. repeat split; apply dict_get_set; exact Hk.
Qed.

Lemma added_rule_is_found_witness :
  Py.dict_get "car park"
    (words (replacements (cmd_add_word sound_config
                            "/add_word  car park |garage| P ")))
  = Some "garage| P".
Proof.
  apply (proj1 (proj2 (proj1
           (added_rule_is_found sound_config
              "/add_word  car park |garage| P " "/add_word"
              "car park |garage| P " "car park " "garage| P "
              eq_refl eq_refl eq_refl ltac:(discriminate)
              ltac:(discriminate))))).
Defined.

(** X22: adding a rule under a key the category does not hold yet and
    removing that key again gives back the category as it was. *)
Theorem add_then_remove_rule
        (cfg : BotConfig) (t1 c1 a1 o n t2 c2 a2 : string) :
  split_None_1 t1 = [c1; a1] ->
  contains "|" a1 = true ->
  Py.split_sep_1 "|" a1 = (o, n) ->
  strip o <> EmptyString ->
  strip n <> EmptyString ->
  split_None_1 t2 = [c2; a2] ->
  strip a2 = strip o ->
  (Py.dict_mem (strip o) (links (replacements cfg)) = false ->
   links (replacements (cmd_remove_link (cmd_add_link cfg t1) t2))
   = links (replacements cfg))
  /\ (Py.dict_mem (strip o) (words (replacements cfg)) = false ->
      words (replacements (cmd_remove_word (cmd_add_word cfg t1) t2))
      = words (replacements cfg))
  /\ (Py.dict_mem (strip o) (sentences (replacements cfg)) = false ->
      sentences
        (replacements (cmd_remove_sentence (cmd_add_sentence cfg t1) t2))
      = sentences (replacements cfg)).
Proof.
  intros H1 Hc Hp Ho Hn H2 Hk.
  assert (Hround : forall d,
             Py.dict_mem (strip o) d = false ->
             remove_rule t2 (add_rule t1 d) = d).
  { intros d Hd. unfold add_rule, remove_rule.
    rewrite H1, Hc, Hp, H2, Hk. cbn [negb].
    rewrite (proj2 (is_empty_false_iff _) Ho),
      (proj2 (is_empty_false_iff _) Hn). cbn [orb].
    destruct (dict_del_set_absent (strip o) (strip n) d Hd) as [-> ->].
    reflexivity. }
  repeat split; intros Hd; cbn; apply Hround, Hd.
Qed.

Lemma add_then_remove_rule_witness :
  links (replacements
           (cmd_remove_link (cmd_add_link sound_config "/add_link a.io|b.io")
              "/remove_link  a.io "))
  = [("old.com", "new.com")].
Proof.
  apply (proj1 (add_then_remove_rule sound_config
                  "/add_link a.io|b.io" "/add_link" "a.io|b.io" "a.io" "b.io"
                  "/remove_link  a.io " "/remove_link" "a.io "
                  eq_refl eq_refl eq_refl ltac:(discriminate)
                  ltac:(discriminate) eq_refl eq_refl)).
  reflexivity.
Defined.

(** ** The routing of messages, buttons and updates *)

Section Routing.

Lemma startswith_app (p q s : string) :
  startswith (p ++ q) s = true -> startswith p s = true.
Proof.
  revert s. induction p as [|a p IH]; intros s H; [reflexivity|].
  destruct s as [|b s]; [discriminate|].
  cbn [String.append startswith] in *.
  apply andb_true_iff in H as [Hab H]. rewrite Hab. exact (IH s H).
Qed.

(** A text that starts with [/start_forwarding] starts with [/start]. *)
Lemma start_forwarding_is_start (t : string) :
  startswith "/start" t = false -> startswith "/start_forwarding" t = false.
Proof.
  intros H. destruct (startswith "/start_forwarding" t) eqn:E; [|reflexivity].
  rewrite (startswith_app "/start" "_forwarding" t E) in H. discriminate.
Qed.

(** What each command does to the forwarding flag. *)
Lemma flag_add_channel cfg t :
  forwarding_enabled (cmd_add_channel cfg t) = forwarding_enabled cfg.
Proof.
  rewrite cmd_add_channel_eq.
  destruct (split_None_1 t) as [|c [|arg [|x r]]]; try reflexivity.
  destruct (mem_str _ _); reflexivity.
Qed.

Lemma flag_remove_channel cfg t :
  forwarding_enabled (cmd_remove_channel cfg t) = forwarding_enabled cfg.
Proof.
  unfold cmd_remove_channel.
  destruct (split_None_1 t) as [|c [|arg [|x r]]]; try reflexivity.
  destruct (find_channel _ _) as [f|]; [|reflexivity].
  destruct (is_empty f); reflexivity.
Qed.

Lemma flag_set_target cfg t :
  forwarding_enabled (cmd_set_target cfg t) = forwarding_enabled cfg.
Proof.
  unfold cmd_set_target.
  destruct (split_None_1 t) as [|c [|arg [|x r]]]; try reflexivity.
  destruct (String.eqb _ _); reflexivity.
Qed.

Lemma flag_clear_target cfg :
  forwarding_enabled (cmd_clear_target cfg) = true ->
  forwarding_enabled cfg = true.
Proof.
  unfold cmd_clear_target. destruct (is_empty (target_channel cfg)); [auto|].
  cbn [forwarding_enabled with_target].
  destruct (forwarding_enabled cfg) eqn:E; cbn; [discriminate|].
  rewrite E. discriminate.
Qed.

Lemma flag_clear_replacements cfg t :
  forwarding_enabled (cmd_clear_replacements cfg t) = forwarding_enabled cfg.
Proof.
  unfold cmd_clear_replacements.
  destruct (Py.split_None t) as [|c [|ty r]]; try reflexivity.
  cbv zeta.
  repeat match goal with
         | |- context [if ?b then _ else _] => destruct b
         end; reflexivity.
Qed.

(** The state a message leaves is one of these: unchanged; waiting for a
    first administrator; or, for an administrator whose text does not
    start with [/start], the result of one command other than the start
    command. *)
Lemma handle_message_cases (bot : Bot) (m : Updates.Message) :
  handle_message bot m = bot
  \/ (admin_users bot = []
      /\ exists e, handle_message bot m = with_expecting bot e)
  \/ (is_admin bot (Updates.msg_from m) = true
      /\ exists t,
          handle_message bot m
          = with_config bot (cmd_stop_forwarding (config bot))
          \/ handle_message bot m
             = with_admins bot (cmd_add_admin (admin_users bot) t)
          \/ handle_message bot m
             = with_admins bot
                 (cmd_remove_admin (admin_users bot) (Updates.msg_from m) t)
          \/ handle_message bot m
             = with_config bot (cmd_add_channel (config bot) t)
          \/ handle_message bot m
             = with_config bot (cmd_remove_channel (config bot) t)
          \/ handle_message bot m
             = with_config bot (cmd_set_target (config bot) t)
          \/ handle_message bot m
             = with_config bot (cmd_clear_target (config bot))
          \/ handle_message bot m
             = with_config bot (cmd_add_link (config bot) t)
          \/ handle_message bot m
             = with_config bot (cmd_remove_link (config bot) t)
          \/ handle_message bot m
             = with_config bot (cmd_add_word (config bot) t)
          \/ handle_message bot m
             = with_config bot (cmd_remove_word (config bot) t)
          \/ handle_message bot m
             = with_config bot (cmd_add_sentence (config bot) t)
          \/ handle_message bot m
             = with_config bot (cmd_remove_sentence (config bot) t)
          \/ handle_message bot m
             = with_config bot (cmd_clear_replacements (config bot) t)).
Proof.
  unfold handle_message.
  destruct (Updates.msg_text m) as [raw|]; [|left; reflexivity].
  cbv zeta.
  destruct (startswith "/start" (strip raw)) eqn:Es.
  { destruct (admin_users bot) eqn:Ea; [|left; reflexivity].
    right; left. split; [reflexivity|]. eexists. reflexivity. }
  destruct (is_admin bot (Updates.msg_from m)) eqn:Ead; [|left; reflexivity].
  rewrite (start_forwarding_is_start _ Es).
  repeat match goal with
         | |- context [if startswith ?p (strip raw) then _ else _] =>
             destruct (startswith p (strip raw));
             [first [ left; reflexivity
                    | right; right; split; [reflexivity|];
                      exists (strip raw); tauto ] |]
         end.
  destruct (admin_users bot) eqn:Ea; [|left; reflexivity].
  unfold is_admin in Ead. rewrite Ea in Ead. discriminate.
Qed.

End Routing.

Section Admins.

Lemma mem_int_In (x : Z) (l : list Z) : Py.mem_int x l = true <-> In x l.
Proof.
  induction l as [|y l IH]; simpl; [split; [discriminate | intros []]|].
  rewrite orb_true_iff, IH, Z.eqb_eq. reflexivity.
Qed.

Lemma In_remove_int_other (x y : Z) (l : list Z) :
  x <> y -> (In x (Py.remove_int y l) <-> In x l).
Proof.
  intros Hne. induction l as [|z l IH]; simpl; [reflexivity|].
  destruct (Z.eqb_spec z y) as [->|Hzy]; simpl.
  - split; [auto | intros [H|H]; [congruence | exact H]].
  - rewrite IH. reflexivity.
Qed.

Lemma remove_int_NoDup (y : Z) (l : list Z) :
  NoDup l -> ~ In y (Py.remove_int y l).
Proof.
  induction 1 as [|z l Hz Hn IH]; simpl; [auto|].
  destruct (Z.eqb_spec z y) as [->|Hzy]; [exact Hz|].
  simpl. intros [H|H]; [congruence | exact (IH H)].
Qed.

(** An administrator stays one through their own message. *)
Lemma handle_message_keeps_caller (bot : Bot) (m : Updates.Message) :
  is_admin bot (Updates.msg_from m) = true ->
  is_admin (handle_message bot m) (Updates.msg_from m) = true.
Proof.
  intros Had.
  destruct (handle_message_cases bot m) as [->|[[_ [e ->]]|[_ [t H]]]];
    try exact Had.
  unfold is_admin in *.
  repeat (destruct H as [->|H]); try rewrite H; try exact Had;
    cbn [admin_users with_admins]; apply mem_int_In;
    apply mem_int_In in Had.
  - unfold cmd_add_admin.
    destruct (Py.split_None t) as [|c [|arg [|x r]]]; try exact Had.
    destruct (Py.int arg) as [n|]; [|exact Had].
    destruct (Py.mem_int n (admin_users bot)); [exact Had|].
    apply in_or_app. left. exact Had.
  - unfold cmd_remove_admin.
    destruct (Py.split_None t) as [|c [|arg [|x r]]]; try exact Had.
    destruct (Py.int arg) as [n|]; [|exact Had].
    destruct (Z.eqb_spec n (Updates.msg_from m)) as [_|Hne]; [exact Had|].
    destruct (Py.mem_int n (admin_users bot)); [|exact Had].
    apply In_remove_int_other; [congruence | exact Had].
Qed.

(** A message of someone who is no administrator leaves the configuration
    and the administrators as they are. *)
Lemma handle_message_non_admin (bot : Bot) (m : Updates.Message) :
  is_admin bot (Updates.msg_from m) = false ->
  config (handle_message bot m) = config bot
  /\ admin_users (handle_message bot m) = admin_users bot.
Proof.
  intros Hna.
  destruct (handle_message_cases bot m) as [->|[[_ [e ->]]|[Had _]]];
    [auto | auto | congruence].
Qed.

Lemma handle_callback_query_non_admin (bot : Bot) (q : Updates.CallbackQuery) :
  is_admin bot (Updates.cb_from q) = false ->
  handle_callback_query bot q = bot.
Proof.
  intros H. unfold handle_callback_query. rewrite H. reflexivity.
Qed.

(** No message and no button switches forwarding on. *)
Lemma handle_message_flag (bot : Bot) (m : Updates.Message) :
  forwarding_enabled (config (handle_message bot m)) = true ->
  forwarding_enabled (config bot) = true.
Proof.
  destruct (handle_message_cases bot m) as [->|[[_ [e ->]]|[_ [t H]]]];
    try (intros E; exact E).
  repeat (destruct H as [->|H]); try rewrite H;
    cbn [config with_config with_admins];
    rewrite ?flag_add_channel, ?flag_remove_channel, ?flag_set_target,
      ?flag_clear_replacements;
    try (intros E; exact E);
    try apply flag_clear_target; discriminate.
Qed.

Lemma handle_callback_query_flag (bot : Bot) (q : Updates.CallbackQuery) :
  forwarding_enabled (config (handle_callback_query bot q)) = true ->
  forwarding_enabled (config bot) = true.
Proof.
  unfold handle_callback_query.
  repeat match goal with
         | |- context [if ?b then _ else _] => destruct b
         end;
    cbn [config with_config];
    rewrite ?flag_clear_replacements;
    try (intros E; exact E); apply flag_clear_target.
Qed.

Lemma process_update_flag (bot : Bot) (u : Updates.Update) :
  forwarding_enabled (config (process_update bot u)) = true ->
  forwarding_enabled (config bot) = true.
Proof.
  unfold process_update.
  destruct (Updates.channel_post u); [auto|].
  destruct (Updates.message u); [apply handle_message_flag|].
  destruct (Updates.callback_query u);
    [apply handle_callback_query_flag | auto].
Qed.

Lemma process_update_no_admin (bot : Bot) (u : Updates.Update) :
  admin_users bot = [] ->
  config (process_update bot u) = config bot
  /\ admin_users (process_update bot u) = [].
Proof.
  intros Ha.
  assert (Hna : forall x, is_admin bot x = false).
  { intros x. unfold is_admin. rewrite Ha. reflexivity. }
  unfold process_update.
  destruct (Updates.channel_post u); [auto|].
  destruct (Updates.message u) as [m|].
  - destruct (handle_message_non_admin bot m (Hna _)) as [-> ->]. auto.
  - destruct (Updates.callback_query u) as [q|]; [|auto].
    rewrite (handle_callback_query_non_admin bot q (Hna _)). auto.
Qed.

End Admins.

(** X23: only administrators change the bot: a message or a button press
    of anyone else leaves the configuration and the list of
    administrators as they are. *)
Theorem non_admin_changes_nothing (bot : Bot) :
  (forall m : Updates.Message,
      is_admin bot (Updates.msg_from m) = false ->
      config (handle_message bot m) = config bot
      /\ admin_users (handle_message bot m) = admin_users bot)
  /\ (forall q : Updates.CallbackQuery,
         is_admin bot (Updates.cb_from q) = false ->
         handle_callback_query bot q = bot).
Proof.
  split.
  - exact (handle_message_non_admin bot).
  - exact (handle_callback_query_non_admin bot).
Qed.

(** X24: no update switches forwarding on: a text that starts with
    [/start_forwarding] starts with [/start] and is answered as the start
    command, so the start-forwarding command is never reached.  A bot
    that begins with forwarding off therefore relays no channel post,
    whatever updates it receives. *)
Theorem forwarding_never_switched_on :
  (forall bot u,
      forwarding_enabled (config (process_update bot u)) = true ->
      forwarding_enabled (config bot) = true)
  /\ (forall us bot,
         forwarding_enabled (config bot) = false ->
         forwarding_enabled (config (fst (run bot us))) = false
         /\ api_calls (snd (run bot us)) = []).
Proof.
  split; [exact process_update_flag|].
  induction us as [|u us IH]; intros bot Hoff; [auto|].
  cbn [run].
  assert (Hoff' : forwarding_enabled (config (process_update bot u)) = false).
  { destruct (forwarding_enabled (config (process_update bot u))) eqn:E;
      [|reflexivity].
    rewrite (process_update_flag bot u E) in Hoff. discriminate. }
  destruct (IH _ Hoff') as [Hf Hc].
  destruct (run (process_update bot u) us) as [bot' evs].
  cbn [fst snd] in *. split; [exact Hf|].
  rewrite api_calls_app, Hc, app_nil_r.
  unfold update_events. destruct (Updates.channel_post u); [|reflexivity].
  unfold handle_channel_post. rewrite Hoff. reflexivity.
Qed.

(** X25: a bot without administrators never gets one: the branch that
    would enrol the first administrator lies behind the test that the
    sender is an administrator.  Over any run of updates the list of
    administrators stays empty and the configuration unchanged. *)
Theorem first_admin_never_enrolled (us : list Updates.Update) (bot : Bot) :
  admin_users bot = [] ->
  admin_users (fst (run bot us)) = []
  /\ config (fst (run bot us)) = config bot.
Proof.
  revert bot. induction us as [|u us IH]; intros bot Ha; [auto|].
  cbn [run].
  destruct (process_update_no_admin bot u Ha) as [Hc Ha'].
  destruct (IH _ Ha') as [H1 H2].
  destruct (run (process_update bot u) us) as [bot' evs].
  cbn [fst] in *. split; [exact H1 | congruence].
Qed.

(** X26: an administrator stays one through their own message: the
    remove-admin command refuses the sender's own id. *)
Theorem caller_stays_admin (bot : Bot) (m : Updates.Message) :
  is_admin bot (Updates.msg_from m) = true ->
  is_admin (handle_message bot m) (Updates.msg_from m) = true.
Proof.
  exact (handle_message_keeps_caller bot m).
Qed.

Lemma non_admin_changes_nothing_witness :
  config (handle_message (sample_bot [5%Z] true)
            (sample_message 9 "/stop_forwarding"))
  = sample_config true "-100777".
Proof.
  apply (proj1 (proj1 (non_admin_changes_nothing (sample_bot [5%Z] true))
                  (sample_message 9 "/stop_forwarding") eq_refl)).
Defined.

Lemma forwarding_never_switched_on_witness :
  api_calls
    (snd (run (sample_bot [5%Z] false)
            [text_update 5 "/add_channel @NewsCh";
             text_update 5 "/set_target -100777";
             text_update 5 "/start_forwarding";
             post_update (sample_other_post (Some "see old.com"))]))
  = [].
Proof.
  apply (proj2 (proj2 forwarding_never_switched_on
                  [text_update 5 "/add_channel @NewsCh";
                   text_update 5 "/set_target -100777";
                   text_update 5 "/start_forwarding";
                   post_update (sample_other_post (Some "see old.com"))]
                  (sample_bot [5%Z] false) eq_refl)).
Defined.

Lemma first_admin_never_enrolled_witness :
  admin_users
    (fst (run (sample_bot [] false)
            [text_update 5 "/start"; text_update 5 "5"]))
  = [].
Proof.
  apply (proj1 (first_admin_never_enrolled
                  [text_update 5 "/start"; text_update 5 "5"]
                  (sample_bot [] false) eq_refl)).
Defined.

Lemma caller_stays_admin_witness :
  is_admin (handle_message (sample_bot [5%Z; 7%Z] true)
              (sample_message 5 "/remove_admin 5"))
    5 = true.
Proof.
  apply (caller_stays_admin (sample_bot [5%Z; 7%Z] true)
           (sample_message 5 "/remove_admin 5")).
  reflexivity.
Defined.

(** The start-forwarding command by itself would switch forwarding on
    here; sent as a message it does not. *)
Example start_forwarding_shadowed :
  forwarding_enabled
    (cmd_start_forwarding (config (sample_bot [5%Z] false))) = true
  /\ handle_message (sample_bot [5%Z] false)
       (sample_message 5 "/start_forwarding")
     = sample_bot [5%Z] false.
Proof. split; reflexivity. Qed.

(** X27: the add-admin command with a valid id makes that id an
    administrator and keeps the others; the list holds no id twice if it
    did not before.  With anything that is no integer the list stays as it
    is. *)
Theorem add_admin_effect (admins : list Z) (text cmd arg : string) :
  Py.split_None text = [cmd; arg] ->
  (forall n, Py.int arg = Some n ->
             Py.mem_int n (cmd_add_admin admins text) = true
             /\ (forall a, Py.mem_int a admins = true ->
                           Py.mem_int a (cmd_add_admin admins text) = true)
             /\ (NoDup admins -> NoDup (cmd_add_admin admins text)))
  /\ (Py.int arg = None -> cmd_add_admin admins text = admins).
Proof.
  intros Hs. unfold cmd_add_admin. rewrite Hs. split.
  - intros n Hn. rewrite Hn.
    destruct (Py.mem_int n admins) eqn:E; [auto|].
    split; [apply mem_int_In, in_or_app; right; left; reflexivity|].
    split.
    + intros a Ha. apply mem_int_In, in_or_app. left.
      apply mem_int_In, Ha.
    + intros Hnd. apply NoDup_incl_NoDup with (l := n :: admins).
      * constructor; [|exact Hnd].
        intros Hin. apply mem_int_In in Hin. congruence.
      * rewrite length_app. simpl. lia.
      * intros x Hx. apply in_or_app. simpl in *. intuition.
  - intros Hn. rewrite Hn. reflexivity.
Qed.

Lemma add_admin_effect_witness :
  Py.mem_int 1000 (cmd_add_admin [5%Z] "/add_admin  1_000") = true
  /\ cmd_add_admin [5%Z] "/add_admin 1__0" = [5%Z].
Proof.
  split.
  - exact (proj1 (proj1 (add_admin_effect [5%Z] "/add_admin  1_000"
                           "/add_admin" "1_000" eq_refl) 1000%Z eq_refl)).
  - apply (proj2 (add_admin_effect [5%Z] "/add_admin 1__0" "/add_admin"
                    "1__0" eq_refl) eq_refl).
Defined.

(** X28: the remove-admin command does nothing when the id is the
    sender's own; for another id it takes one entry out, so that in a
    list without repetitions that id is no administrator afterwards, and
    everyone else stays what they were. *)
Theorem remove_admin_effect
        (admins : list Z) (user_id : Z) (text cmd arg : string) (n : Z) :
  Py.split_None text = [cmd; arg] ->
  Py.int arg = Some n ->
  (n = user_id -> cmd_remove_admin admins user_id text = admins)
  /\ (n <> user_id ->
      (NoDup admins ->
       Py.mem_int n (cmd_remove_admin admins user_id text) = false)
      /\ forall a, a <> n ->
                   Py.mem_int a (cmd_remove_admin admins user_id text)
                   = Py.mem_int a admins).
Proof.
  intros Hs Hn. unfold cmd_remove_admin. rewrite Hs, Hn. split.
  - intros ->. rewrite Z.eqb_refl. reflexivity.
  - intros Hne. apply Z.eqb_neq in Hne. rewrite Hne.
    destruct (Py.mem_int n admins) eqn:E.
    + split.
      * intros Hnd. destruct (Py.mem_int n (Py.remove_int n admins)) eqn:E';
          [|reflexivity].
        apply mem_int_In in E'. destruct (remove_int_NoDup n admins Hnd E').
      * intros a Ha. apply Bool.eq_true_iff_eq. rewrite !mem_int_In.
        apply In_remove_int_other. exact Ha.
    + split; [intros _; exact E | reflexivity].
Qed.

Lemma remove_admin_effect_witness :
  cmd_remove_admin [5%Z; 7%Z] 5 "/remove_admin 5" = [5%Z; 7%Z]
  /\ Py.mem_int 7 (cmd_remove_admin [5%Z; 7%Z] 5 "/remove_admin +7") = false.
Proof.
  split.
  - apply (proj1 (remove_admin_effect [5%Z; 7%Z] 5 "/remove_admin 5"
                    "/remove_admin" "5" 5 eq_refl eq_refl) eq_refl).
  - apply (proj1 (proj2 (remove_admin_effect [5%Z; 7%Z] 5 "/remove_admin +7"
                           "/remove_admin" "+7" 7 eq_refl eq_refl)
                    ltac:(discriminate))).
    repeat constructor; simpl; intuition; discriminate.
Defined.

(** ** Texts that are exactly a key *)

Section ExactKey.

Lemma append_empty_r (s : string) : (s ++ "")%string = s.
Proof. induction s as [|c s IH]; simpl; [|rewrite IH]; reflexivity. Qed.

Lemma startswith_refl (s : string) : startswith s s = true.
Proof.
  induction s as [|c s IH]; simpl; [reflexivity|].
  rewrite Ascii.eqb_refl. exact IH.
Qed.

(** Dropping a whole occurrence leaves nothing of it. *)
Lemma replace_from_skip_all (old new s : string) :
  replace_from old new (String.length s) s = EmptyString.
Proof. induction s as [|c s IH]; simpl; [reflexivity | exact IH]. Qed.

Lemma replace_self (old new : string) :
  old <> EmptyString -> replace old new old = new.
Proof.
  destruct old as [|a r]; [congruence|]. intros _.
  unfold replace. cbn [replace_from].
  rewrite (startswith_refl (String a r)).
  cbn [String.length]. rewrite Nat.sub_1_r. cbn [Nat.pred].
  rewrite replace_from_skip_all. apply append_empty_r.
Qed.

(** The literals of a key that ends in a word character, followed by
    [\b], match a text that is the key up to letter case, as a whole. *)
Lemma literals_match_exact (k : string) (c : ascii) :
  PyRe.is_word c = true ->
  forall text prev,
    lower text = lower (k ++ String c "")%string ->
    PyRe.match_here
      (PyRe.literals (k ++ String c "")%string ++ [PyRe.Boundary])%list
      prev text
    = Some (String.length text).
Proof.
  intros Hc. induction k as [|a k IH]; intros text prev Hl.
  - destruct text as [|d [|d' text]]; try discriminate.
    cbn in Hl. injection Hl as Hd.
    cbn [String.append PyRe.literals app PyRe.match_here].
    unfold PyRe.ci_eqb. rewrite Hd, Ascii.eqb_refl.
    cbn [PyRe.match_here head]. unfold PyRe.word_boundary.
    cbn [PyRe.is_word_at].
    rewrite <- (is_word_lower_char d), Hd, is_word_lower_char, Hc.
    reflexivity.
  - destruct text as [|d text]; [discriminate|].
    cbn in Hl. injection Hl as Hd Hl.
    cbn [String.append PyRe.literals app PyRe.match_here].
    unfold PyRe.ci_eqb. rewrite Hd, Ascii.eqb_refl.
    rewrite (IH text (Some d) Hl). reflexivity.
Qed.

(** Once the whole text is matched, nothing is left to scan. *)
Lemma sub_from_skip_all (key : string) (a : ascii) (t : PyRe.template)
      (s : string) :
  forall prev,
    PyRe.sub_from (PyRe.word_pattern (String a key)) t prev
      (String.length s) s
    = EmptyString.
Proof.
  induction s as [|c s IH]; intros prev; cbn [String.length PyRe.sub_from].
  - unfold PyRe.word_pattern. cbn [PyRe.literals app PyRe.match_here].
    destruct (PyRe.word_boundary prev (head "")); reflexivity.
  - apply IH.
Qed.

End ExactKey.

(** X29: a text that is the key of a link rule, or of a sentence rule,
    and nothing else is replaced by the value of the rule. *)
Theorem exact_key_replaced (old new : string) :
  old <> EmptyString ->
  apply (rules_only [(old, new)] [] []) old = new
  /\ apply (rules_only [] [] [(old, new)]) old = new.
Proof.
  intros Hne. unfold apply, apply_replacements.
  rewrite (is_empty_false _ Hne).
  cbn. rewrite (replace_self old new Hne). auto.
Qed.

Lemma exact_key_replaced_witness :
  apply (rules_only [("old.com", "")] [] []) "old.com" = "".
Proof.
  apply (proj1 (exact_key_replaced "old.com" "" ltac:(discriminate))).
Defined.

(** X30: for a key and a text of ASCII characters: a text that is, up to
    letter case, the key of a word rule (a key that begins and ends with
    word characters) is replaced by the value of the rule, letter for
    letter when the value holds no backslash.  (Beyond ASCII, equal lower
    case does not make an [re.IGNORECASE] match.) *)
Theorem exact_word_replaced (k : string) (c : ascii) (new text : string) :
  is_ascii (k ++ String c "")%string = true ->
  is_ascii text = true ->
  PyRe.is_word_at (head (k ++ String c "")%string) = true ->
  PyRe.is_word c = true ->
  contains "\" new = false ->
  lower text = lower (k ++ String c "")%string ->
  apply (rules_only [] [((k ++ String c "")%string, new)] []) text = new.
Proof.
  intros _ _ Hfirst Hc Hnew Hl.
  assert (Hne : text <> EmptyString).
  { intros ->. destruct k; discriminate. }
  unfold apply, apply_replacements. rewrite (is_empty_false _ Hne).
  unfold run_stages, words_stage, sentences_stage.
  cbn [rules_only replacements links words sentences links_stage
       sorted_by_len fold_right insert_by_len words_loop sentences_loop].
  unfold PyRe.sub. rewrite (parse_template_plain new Hnew).
  cbn [bind fst].
  assert (Hm : PyRe.match_here (PyRe.word_pattern (k ++ String c "")%string)
                 None text = Some (String.length text)).
  { unfold PyRe.word_pattern. cbn [PyRe.match_here].
    replace (PyRe.word_boundary None (head text)) with true.
    - apply literals_match_exact; assumption.
    - unfold PyRe.word_boundary. cbn [PyRe.is_word_at xorb].
      destruct text as [|d text]; [congruence|].
      destruct k as [|a k]; cbn in Hl, Hfirst |- *;
        injection Hl as Hd _;
        rewrite <- (is_word_lower_char d), Hd, is_word_lower_char;
        symmetry; assumption. }
  destruct text as [|d text]; [congruence|].
  cbn [PyRe.sub_from]. rewrite Hm. cbn [String.length].
  rewrite expand_lits.
  destruct (k ++ String c "")%string as [|a key] eqn:Ek;
    [destruct k; discriminate|].
  rewrite sub_from_skip_all. cbn [bind sentences_loop fst].
  apply append_empty_r.
Qed.

Lemma exact_word_replaced_witness :
  apply (rules_only [] [("car park", "a+b (c)")] []) "Car PARK" = "a+b (c)".
Proof.
  apply (exact_word_replaced "car par" "k" "a+b (c)" "Car PARK");
    reflexivity.
Defined.

Lemma requests_go_to_target_witness :
  payload_get "chat_id"
    (snd (request (send_photo "-100777" "large" (Some "my bus"))))
  = Some (VStr "-100777").
Proof.
  apply (proj2 (requests_go_to_target sound_config
                  (sample_photo_post (Some "newsch") (Some "my Car")))
           (send_photo "-100777" "large" (Some "my bus"))).
  left. reflexivity.
Defined.

Lemma relayed_iff_preconditions_witness :
  exists c,
    outcome_of (handle_channel_post sound_config (sample_other_post None))
    = Some (Relayed c).
Proof.
  apply (proj2 (proj2 (relayed_iff_preconditions sound_config
                         (sample_other_post None)))).
  split; [reflexivity|]. split; [discriminate | reflexivity].
Defined.

Lemma add_channel_keeps_sources_witness :
  is_source_channel
    (source_channels (cmd_add_channel sound_config "/add_channel @Sports"))
    "-100123" "newsch" = true.
Proof.
  apply (proj2 (proj2 (proj2 (proj2
           (add_channel_keeps_sources sound_config "/add_channel @Sports"))))
           "-100123" "newsch").
  reflexivity.
Defined.

Lemma remove_channel_only_shrinks_witness :
  is_source_channel (source_channels (sample_config true "-100777"))
    "-100123" "NEWSCH" = true.
Proof.
  apply (proj1 (proj2 (proj2
           (remove_channel_only_shrinks (sample_config true "-100777")
              "/remove_channel sports")))
           "-100123" "NEWSCH").
  reflexivity.
Defined.
